(** * ai-chat: conversation-context lifecycle and single-flight dispatch

    A shallow embedding of [src/index.ts] (the koishi plugin [ai-chat]):
    the context store ([loadContext], [saveContext]), the truncation loop
    ([truncateContextIfNeeded]), the orchestrator ([chat]), the usage
    ledger ([updateTokenUsage]) and the middleware that guards [chat]
    with the [activeChats] map.

    Conventions of the embedding.
    - A JavaScript string is the list of its UTF-16 code units, so that
      [length] is the [.length] of the source.
    - The token counters are JavaScript numbers holding integers; they are
      modelled in [Z], and [+] on them is [jsAdd], the sum rounded to the
      nearest double.
    - [Map], the context directory and the usage table are finite maps
      keyed by the user identifier.
    - An [async] function runs synchronously up to its first [await]; the
      middleware is therefore split at [await fetch] into the part run
      when a message arrives and the part run when the endpoint answers. *)

From Stdlib Require Import ZArith NArith List Ascii String Bool Lia.
From stdpp Require Import base option list gmap.

Import ListNotations.
Local Open Scope Z_scope.

(** ** Strings *)

Definition code_unit : Type := N.
Definition jsstring : Type := list code_unit.

Fixpoint js (s : string) : jsstring :=
  match s with
  | EmptyString => []
  | String a r => N_of_ascii a :: js r
  end.

(** [s.length] *)
Definition jslength (s : jsstring) : Z := Z.of_nat (length s).

Definition jseqb (a b : jsstring) : bool := bool_decide (a = b).

(** ** Messages *)

Record Message : Type := mkMessage { role : jsstring; content : jsstring }.

#[global] Instance Message_eq_dec : EqDecision Message.
Proof. solve_decision. Defined.

Definition role_system : jsstring := Eval cbv in js "system".
Definition role_user : jsstring := Eval cbv in js "user".
Definition role_assistant : jsstring := Eval cbv in js "assistant".

(** ** Truncation (index.ts, [truncateContextIfNeeded]) *)

(** [ctx.reduce((acc, curr) => acc + curr.content.length, 0)] *)
Definition contentLength (ctx : list Message) : Z :=
  fold_left (fun acc curr => acc + jslength (content curr)) ctx 0.

(** [Array.prototype.shift]: removes index 0; nothing happens on []. *)
Definition shift {A} (l : list A) : list A := tl l.

(** The [while] loop, with the number of iterations bounded by [fuel];
    [None] says that the loop is still running when the fuel is spent. *)
Fixpoint truncate_loop (fuel : nat) (truncatedContext : list Message)
    (maxTokens : Z) : option (list Message) :=
  match fuel with
  | O => None
  | S fuel' =>
      if contentLength truncatedContext >? maxTokens
      then truncate_loop fuel' (shift truncatedContext) maxTokens
      else Some truncatedContext
  end.

(** The function itself: the loop gets more iterations than the context
    has messages.  [truncate_None_diverges] below shows that [None] is
    returned only when the loop of the source never exits. *)
Definition truncateContextIfNeeded (context : list Message) (maxTokens : Z)
    : option (list Message) :=
  truncate_loop (S (length context)) context maxTokens.

(** ** Normalisation of the inbound text (index.ts, middleware)

    [session.content.trim().replace(/<[^>]*>/g, "")] *)

(** WhiteSpace and LineTerminator code points of ECMAScript, the
    characters [String.prototype.trim] strips. *)
Definition isWhiteSpace (c : code_unit) : bool :=
  ((9 <=? c) && (c <=? 13) || (c =? 32) || (c =? 160) || (c =? 5760)
   || (8192 <=? c) && (c <=? 8202) || (c =? 8232) || (c =? 8233)
   || (c =? 8239) || (c =? 8287) || (c =? 12288) || (c =? 65279))%N.

Definition whiteSpace (c : code_unit) : Prop := isWhiteSpace c = true.

Fixpoint trimStart (s : jsstring) : jsstring :=
  match s with
  | [] => []
  | c :: r => if isWhiteSpace c then trimStart r else s
  end.

Definition trim (s : jsstring) : jsstring :=
  rev (trimStart (rev (trimStart s))).

Definition LT : code_unit := 60%N.  (* < *)
Definition GT : code_unit := 62%N.  (* > *)

(** [[^>]*>] tried at the head of [s]: the greedy class consumes every
    code unit other than [>], so the match ends at the first [>]; the
    rest of the string after the match is returned.  Without any [>]
    the match fails, backtracking included (every shorter run of the
    class is followed by a code unit that is not [>]). *)
Fixpoint matchTagTail (s : jsstring) : option jsstring :=
  match s with
  | [] => None
  | c :: r => if (c =? GT)%N then Some r else matchTagTail r
  end.

(** [<[^>]*>] tried at the head of [s]. *)
Definition matchTag (s : jsstring) : option jsstring :=
  match s with
  | [] => None
  | c :: r => if (c =? LT)%N then matchTagTail r else None
  end.

(** [replace(re, "")] with the [g] flag: scan from the left; where the
    pattern matches, drop the match and go on after it; elsewhere keep
    the code unit and go on at the next one.  [fuel] bounds the number of
    scanning steps. *)
Fixpoint removeTags_loop (fuel : nat) (s : jsstring) : jsstring :=
  match fuel with
  | O => []
  | S fuel' =>
      match s with
      | [] => []
      | c :: r =>
          match matchTag s with
          | Some rest => removeTags_loop fuel' rest
          | None => c :: removeTags_loop fuel' r
          end
      end
  end.

Definition removeTags (s : jsstring) : jsstring :=
  removeTags_loop (length s) s.

Definition normalize (content : jsstring) : jsstring :=
  removeTags (trim content).

(** ** Configuration, sessions and the outside world *)

(** The fields of [Config] that the modelled functions read.  The
    numeric sampling parameters are copied into the request unchanged
    and are left out. *)
Record Config : Type := mkConfig {
  model : jsstring;
  customModel : option jsstring;
  systemPrompt : option jsstring;
  helpMessage : jsstring;
  maxTokens : Z
}.

(** [Schema.number().min(16).max(4096)] *)
Definition validConfig (config : Config) : Prop :=
  16 <= maxTokens config <= 4096.

Record Session : Type := mkSession {
  userId : jsstring;
  username : jsstring;
  platform : jsstring;
  sessionContent : jsstring
}.

(** A conversation record on disk: its text parses to an array of
    messages whose [role] and [content] are strings, as [Message]
    declares them, or reading or parsing it throws.  A record that
    parses to something else is not represented. *)
Inductive FileRecord : Type :=
| Parsable (context : list Message)
| Unparsable.

(** A row of the table [ai_chat_token_usage] ([AIChatTokenUsage]). *)
Record AIChatTokenUsage : Type := mkUsageRow {
  id : jsstring;
  userName : jsstring;
  completionTokens : Z;
  promptTokens : Z;
  totalTokens : Z;
  remark : jsstring
}.

(** [data.usage] of the completion response. *)
Record Usage : Type := mkUsage {
  completion_tokens : Z;
  prompt_tokens : Z;
  total_tokens : Z
}.

(** The parsed response body, as far as [chat] looks into it: [usage]
    may be missing, and [choices[0].message.content] either is a string
    or cannot be reached (the property access throws a TypeError).  The
    fields that are present are taken to have the types of the
    endpoint's contract: the counters are integers and the content is a
    string.  A body whose content can be reached and is not a string
    ([null], a missing property) is not represented. *)
Record ResponseBody : Type := mkBody {
  usage : option Usage;
  choices_0_message_content : option jsstring
}.

(** What [await fetch] and [await response.json()] produce. *)
Inductive FetchOutcome : Type :=
| FetchRejected
| FetchResponse (ok : bool) (status : Z) (json : option ResponseBody).

(** Outcomes of the other external operations during one step: the
    [ctx.bots] table, the file system, the database and the Lark
    directory ([None]: the lookup throws). *)
Record Env : Type := mkEnv {
  bots : jsstring -> bool;
  fs_read_ok : bool;
  fs_write_ok : bool;
  fs_unlink_ok : bool;
  db_get_ok : bool;
  db_upsert_ok : bool;
  lark_user : option (jsstring * jsstring)
}.

(** A computation that returns or throws. *)
Inductive result (A : Type) : Type :=
| Ok (a : A)
| Threw.
Arguments Ok {A} a.
Arguments Threw {A}.

(** ** Context store (index.ts, [saveContext], [loadContext], [resetContext])

    The directory [contextDir] is a map from the user identifier to the
    record [path.join(contextDir, uid + ".json")]: identifiers are
    taken to name different files.  (Two identifiers that [path.join]
    or the file system map to one file share a record; nothing below is
    stated about the record of one user from what happens to
    another.) *)

(** [fs.writeFileSync] either replaces the record or throws; a write
    that throws is taken to leave the record as it was. *)
Definition saveContext (env : Env) (files : gmap jsstring FileRecord)
    (uid : jsstring) (context : list Message)
    : result (gmap jsstring FileRecord) :=
  if fs_write_ok env then Ok (<[uid := Parsable context]> files) else Threw.

Definition loadContext (env : Env) (files : gmap jsstring FileRecord)
    (uid : jsstring) : result (list Message) :=
  match files !! uid with
  | Some record =>
      if fs_read_ok env then
        match record with
        | Parsable context => Ok context
        | Unparsable => Threw
        end
      else Threw
  | None => Ok []
  end.

(** Returns the store and whether [logger.error] was called. *)
Definition resetContext (env : Env) (files : gmap jsstring FileRecord)
    (uid : jsstring) : gmap jsstring FileRecord * bool :=
  match files !! uid with
  | Some _ => if fs_unlink_ok env then (delete uid files, false)
              else (files, true)
  | None => (files, false)
  end.

(** ** Usage ledger (index.ts, [updateTokenUsage]) *)

(** The integers up to which every integer is a double. *)
Definition maxSafe : Z := 9007199254740992. (* 2^53 *)

(** The double nearest to an integer, ties to the even significand (an
    integer again; the overflow to [Infinity] near 2^1024 is left out). *)
Definition roundDouble (z : Z) : Z :=
  let a := Z.abs z in
  if a <=? maxSafe then z
  else
    let ulp := 2 ^ (Z.log2 a - 52) in
    let q := a / ulp in
    let r := a mod ulp in
    let q' := if 2 * r <? ulp then q
              else if ulp <? 2 * r then q + 1
              else if Z.even q then q else q + 1 in
    Z.sgn z * (q' * ulp).

(** [a + b] on two numbers that hold integers. *)
Definition jsAdd (a b : Z) : Z := roundDouble (a + b).

(** The object handed to [ctx.database.upsert]: the primary key and the
    columns that are present in it. *)
Record RowUpdate : Type := mkRowUpdate {
  u_id : jsstring;
  u_userName : option jsstring;
  u_completionTokens : option Z;
  u_promptTokens : option Z;
  u_totalTokens : option Z;
  u_remark : option jsstring
}.

(** [upsert] of koishi's database service for one row: a column that is
    present in the update is written; a column that is absent keeps the
    value of the existing row, or gets the default of its type (empty
    string, zero) in a row that is created. *)
Definition upsert (db : gmap jsstring AIChatTokenUsage) (u : RowUpdate)
    : gmap jsstring AIChatTokenUsage :=
  let old := db !! u_id u in
  <[u_id u :=
      {| id := u_id u;
         userName := default (default [] (userName <$> old)) (u_userName u);
         completionTokens :=
           default (default 0 (completionTokens <$> old)) (u_completionTokens u);
         promptTokens :=
           default (default 0 (promptTokens <$> old)) (u_promptTokens u);
         totalTokens :=
           default (default 0 (totalTokens <$> old)) (u_totalTokens u);
         remark := default (default [] (remark <$> old)) (u_remark u) |}]> db.

(** [(await ctx.database.get(DBTableName, uid))[0] || { userName: "", ... }]:
    the four properties the function reads. *)
Record ExistingUsage : Type := mkExisting {
  e_userName : jsstring;
  e_completionTokens : Z;
  e_promptTokens : Z;
  e_totalTokens : Z
}.

Definition existingUsage (db : gmap jsstring AIChatTokenUsage)
    (uid : jsstring) : ExistingUsage :=
  match db !! uid with
  | Some row =>
      {| e_userName := userName row;
         e_completionTokens := completionTokens row;
         e_promptTokens := promptTokens row;
         e_totalTokens := totalTokens row |}
  | None =>
      {| e_userName := [];
         e_completionTokens := 0;
         e_promptTokens := 0;
         e_totalTokens := 0 |}
  end.

Definition platform_lark : jsstring := Eval cbv in js "lark".

(** The display name: lines 275-288. *)
Definition resolveUserName (env : Env) (session : Session)
    (existing : ExistingUsage) : result jsstring :=
  let uid := userId session in
  let userName := e_userName existing in
  if jseqb userName [] then
    if negb (jseqb (username session) uid) then Ok (username session)
    else if jseqb (platform session) platform_lark then
      match lark_user env with
      | Some (name, nickname) => Ok (name ++ js "(" ++ nickname ++ js ")")
      | None => Threw
      end
    else Ok userName
  else Ok userName.

(** The object literal [newUsage]: lines 290-297. *)
Definition newUsage (uid userName : jsstring) (existing : ExistingUsage)
    (usage : Usage) : RowUpdate :=
  {| u_id := uid;
     u_userName := Some userName;
     u_completionTokens :=
       Some (jsAdd (e_completionTokens existing) (completion_tokens usage));
     u_promptTokens :=
       Some (jsAdd (e_promptTokens existing) (prompt_tokens usage));
     u_totalTokens :=
       Some (jsAdd (e_totalTokens existing) (total_tokens usage));
     u_remark := None |}.

(** The body of the [try] block. *)
Definition updateTokenUsage_try (env : Env)
    (db : gmap jsstring AIChatTokenUsage) (session : Session)
    (usage : option Usage) : result (gmap jsstring AIChatTokenUsage) :=
  let uid := userId session in
  if db_get_ok env then
    let existing := existingUsage db uid in
    match resolveUserName env session existing with
    | Ok userName =>
        match usage with
        | Some usage =>
            if db_upsert_ok env
            then Ok (upsert db (newUsage uid userName existing usage))
            else Threw
        | None => Threw (* usage.completion_tokens of undefined *)
        end
    | Threw => Threw
    end
  else Threw.

(** [updateTokenUsage]: whatever the [try] block throws is logged and
    swallowed.  Returns the table and whether [logger.error] was called. *)
Definition updateTokenUsage (env : Env)
    (db : gmap jsstring AIChatTokenUsage) (session : Session)
    (usage : option Usage) : gmap jsstring AIChatTokenUsage * bool :=
  match updateTokenUsage_try env db session usage with
  | Ok db' => (db', false)
  | Threw => (db, true)
  end.

(** The function has an [await] between reading the row (line 268) and
    writing it (line 301), and its caller does not wait for it.  The
    two halves, for runs that overlap: the first reads the row, the
    second resolves the name and writes, from what the first has read,
    into the table as it is by then. *)
Definition updateTokenUsage_read (env : Env)
    (db : gmap jsstring AIChatTokenUsage) (session : Session)
    : result ExistingUsage :=
  if db_get_ok env then Ok (existingUsage db (userId session)) else Threw.

Definition updateTokenUsage_write (env : Env)
    (db : gmap jsstring AIChatTokenUsage) (session : Session)
    (usage : option Usage) (existing : ExistingUsage)
    : gmap jsstring AIChatTokenUsage * bool :=
  match resolveUserName env session existing with
  | Ok userName =>
      match usage with
      | Some usage =>
          if db_upsert_ok env
          then (upsert db (newUsage (userId session) userName existing usage),
                false)
          else (db, true)
      | None => (db, true)
      end
  | Threw => (db, true)
  end.

(** ** Orchestrator (index.ts, [chat]) *)

(** JavaScript truthiness of an optional string: defined and not empty. *)
Definition truthy (s : option jsstring) : bool :=
  match s with
  | Some (_ :: _) => true
  | _ => false
  end.

(** The request body, without the sampling parameters. *)
Record Request : Type := mkRequest {
  req_model : jsstring;
  req_messages : list Message;
  req_max_tokens : Z
}.

(** Lines 199-201: [if (context.length > 0 && context[0].role === "system")
    context.shift()]. *)
Definition dropSystemPrompt (context : list Message) : list Message :=
  match context with
  | m :: _ => if jseqb (role m) role_system then shift context else context
  | [] => context
  end.

(** Lines 206-211: the system message of the current configuration. *)
Definition systemMessage (config : Config) : list Message :=
  if truthy (systemPrompt config)
  then [ {| role := role_system;
            content := default [] (systemPrompt config) ++ [10; 10]%N |} ]
  else [].

(** How the synchronous part of [chat], up to [await fetch], ends. *)
Inductive ChatStart : Type :=
| ChatThrew
| ChatLoops
| ChatAwaitsFetch (context : list Message) (body : Request).

Definition chat_start (config : Config) (env : Env)
    (files : gmap jsstring FileRecord) (session : Session)
    (content : jsstring) : ChatStart :=
  let uid := userId session in
  match loadContext env files uid with
  | Threw => ChatThrew
  | Ok context =>
      let context := dropSystemPrompt context in
      let context := context ++ [ {| role := role_user; content := content |} ] in
      match truncateContextIfNeeded context (maxTokens config) with
      | None => ChatLoops
      | Some context =>
          let context := systemMessage config ++ context in
          let body :=
            {| req_model := if truthy (customModel config)
                            then default [] (customModel config)
                            else model config;
               req_messages := context;
               req_max_tokens := maxTokens config |} in
          ChatAwaitsFetch context body
      end
  end.

Inductive ErrorEntry : Type :=
| ChatError (uid : jsstring)
| UsageError
| ResetError.

(** What the rest of [chat] leaves behind: the returned text, the two
    stores and the calls of [logger.error]. *)
Record Settled : Type := mkSettled {
  s_text : jsstring;
  s_files : gmap jsstring FileRecord;
  s_database : gmap jsstring AIChatTokenUsage;
  s_errors : list ErrorEntry
}.

Definition usageErrors (failed : bool) : list ErrorEntry :=
  if failed then [UsageError] else [].

(** The [try] block from the point where [fetch] settles, and the
    [catch] clause.  [updateTokenUsage] is called without [await]: it
    cannot make [chat] throw, and its writes are applied here in one
    piece (its own error entry, which the source logs later, follows
    the one of [chat]).  The table in the result is therefore the one
    the merge ends with when no other merge of that user is still
    running; runs that overlap are what [updateTokenUsage_read] and
    [updateTokenUsage_write] are for. *)
Definition chat_settle (env : Env) (files : gmap jsstring FileRecord)
    (db : gmap jsstring AIChatTokenUsage) (session : Session)
    (context : list Message) (outcome : FetchOutcome) : Settled :=
  let uid := userId session in
  let failed db' more :=
    {| s_text := []; s_files := files; s_database := db';
       s_errors := ChatError uid :: more |} in
  match outcome with
  | FetchRejected => failed db []
  | FetchResponse ok status json =>
      if negb ok then failed db []
      else
        match json with
        | None => failed db []
        | Some data =>
            let '(db', uerr) := updateTokenUsage env db session (usage data) in
            match choices_0_message_content data with
            | None => failed db' (usageErrors uerr)
            | Some text =>
                let context :=
                  context ++ [ {| role := role_assistant; content := text |} ] in
                match saveContext env files uid context with
                | Threw => failed db' (usageErrors uerr)
                | Ok files' =>
                    {| s_text := text; s_files := files';
                       s_database := db'; s_errors := usageErrors uerr |}
                end
            end
        end
  end.

(** ** Dispatcher (index.ts, the middleware and the two commands) *)

Definition resetMessage : jsstring :=
  [10024; 32; 21652; 22163; 65281; 23545; 35805; 24050; 32463; 38378;
   20142; 37325; 32622; 65292; 23601; 20687; 26032; 30340; 39764; 27861;
   21367; 36724; 19968; 26679; 21602; 65281]%N.

Definition busyMessage : jsstring :=
  [55356; 57119; 32; 22040; 126; 20320; 30340; 39764; 27861; 27491; 22312;
   31934; 24515; 20934; 22791; 20013; 65292; 35831; 32473; 25105; 19968;
   28857; 26102; 38388; 35753; 23427; 23436; 32654; 21576; 29616; 12290;
   19968; 26465; 25509; 19968; 26465; 65292; 21035; 24613; 22043; 126]%N.

Definition fallbackMessage : jsstring :=
  [21734; 21734; 65292; 26045; 27861; 36807; 31243; 20013; 20284; 20046;
   26377; 28857; 23567; 23567; 30340; 27874; 25240; 55356; 57088; 12290;
   31245; 31561; 29255; 21051; 65292; 35753; 25105; 20877; 27425; 38598;
   20013; 39764; 21147; 23581; 35797; 126]%N.

(** A run of [chat] suspended at [await fetch], with the middleware
    invocation that awaits it. *)
Record InFlight : Type := mkInFlight {
  f_session : Session;
  f_context : list Message;
  f_body : Request
}.

(** The state of the plugin and of its stores.  [sent] lists the calls
    of [session.send] (user, text) and [errorLog] those of
    [logger.error], both oldest first. *)
Record State : Type := mkState {
  activeChats : gmap jsstring bool;
  files : gmap jsstring FileRecord;
  database : gmap jsstring AIChatTokenUsage;
  inFlight : list InFlight;
  sent : list (jsstring * jsstring);
  errorLog : list ErrorEntry
}.

Definition initial (files0 : gmap jsstring FileRecord)
    (database0 : gmap jsstring AIChatTokenUsage) : State :=
  {| activeChats := ∅; files := files0; database := database0;
     inFlight := []; sent := []; errorLog := [] |}.

Definition send (st : State) (uid text : jsstring) : State :=
  {| activeChats := activeChats st; files := files st;
     database := database st; inFlight := inFlight st;
     sent := sent st ++ [(uid, text)]; errorLog := errorLog st |}.

Definition setActiveChats (st : State) (m : gmap jsstring bool) : State :=
  {| activeChats := m; files := files st; database := database st;
     inFlight := inFlight st; sent := sent st; errorLog := errorLog st |}.

Definition setInFlight (st : State) (l : list InFlight) : State :=
  {| activeChats := activeChats st; files := files st;
     database := database st; inFlight := l; sent := sent st;
     errorLog := errorLog st |}.

(** [activeChats.get(uid)] used as a condition. *)
Definition isActive (st : State) (uid : jsstring) : bool :=
  match activeChats st !! uid with
  | Some b => b
  | None => false
  end.

(** How the middleware leaves its synchronous part. *)
Inductive Disposition : Type :=
| FromBot
| RejectedBusy
| EmptyInput
| CalledChat (input : jsstring) (start : ChatStart).

(** Lines 121-138, up to the suspension in [await chat(session, input)]. *)
Definition middleware_receive (config : Config) (env : Env) (st : State)
    (session : Session) : State * Disposition :=
  let uid := userId session in
  if bots env uid then (st, FromBot)
  else if isActive st uid then (send st uid busyMessage, RejectedBusy)
  else
    let st := setActiveChats st (<[uid := true]> (activeChats st)) in
    let input := normalize (sessionContent session) in
    if jseqb input [] then (st, EmptyInput)
    else
      let start := chat_start config env (files st) session input in
      match start with
      | ChatAwaitsFetch context body =>
          (setInFlight st
             (inFlight st ++
                [ {| f_session := session; f_context := context;
                     f_body := body |} ]),
           CalledChat input start)
      | _ => (st, CalledChat input start)
      end.

(** Lines 138-144, from the point where the awaited [chat] returns:
    [response || fallback]. *)
Definition middleware_resume (env : Env) (st : State) (run : InFlight)
    (outcome : FetchOutcome) : State :=
  let uid := userId (f_session run) in
  let r := chat_settle env (files st) (database st) (f_session run)
             (f_context run) outcome in
  let response := s_text r in
  {| activeChats := delete uid (activeChats st);
     files := s_files r;
     database := s_database r;
     inFlight := inFlight st;
     sent := sent st ++
             [(uid, if jseqb response [] then fallbackMessage else response)];
     errorLog := errorLog st ++ s_errors r |}.

(** The commands [ai-chat.reset] and [ai-chat.help]. *)
Definition command_reset (env : Env) (st : State) (session : Session) : State :=
  let '(files', failed) := resetContext env (files st) (userId session) in
  {| activeChats := activeChats st; files := files';
     database := database st; inFlight := inFlight st;
     sent := sent st ++ [(userId session, resetMessage)];
     errorLog := errorLog st ++ (if failed then [ResetError] else []) |}.

Definition command_help (config : Config) (st : State) (session : Session)
    : State :=
  send st (userId session) (helpMessage config).

(** ** The event loop *)

(** The first suspended run of a user, and the runs left without it. *)
Fixpoint takeInFlight (uid : jsstring) (l : list InFlight)
    : option (InFlight * list InFlight) :=
  match l with
  | [] => None
  | run :: rest =>
      if jseqb (userId (f_session run)) uid then Some (run, rest)
      else
        match takeInFlight uid rest with
        | Some (found, rest') => Some (found, run :: rest')
        | None => None
        end
  end.

(** What the host delivers to the plugin: a message for the middleware,
    the settling of the [fetch] a user's run is suspended on, or one of
    the commands.  Each event carries the outcomes of the external
    operations performed while it is handled. *)
Inductive Event : Type :=
| Inbound (env : Env) (session : Session)
| Completion (env : Env) (uid : jsstring) (outcome : FetchOutcome)
| ResetCommand (env : Env) (session : Session)
| HelpCommand (session : Session).

Definition step (config : Config) (st : State) (ev : Event) : State :=
  match ev with
  | Inbound env session => fst (middleware_receive config env st session)
  | Completion env uid outcome =>
      match takeInFlight uid (inFlight st) with
      | Some (run, rest) => middleware_resume env (setInFlight st rest) run outcome
      | None => st
      end
  | ResetCommand env session => command_reset env st session
  | HelpCommand session => command_help config st session
  end.

Definition run (config : Config) (st : State) (evs : list Event) : State :=
  fold_left (step config) evs st.

(** ** Auxiliary notions used in the statements *)

(** The identifiers of the users with a suspended run. *)
Definition inFlightUsers (st : State) : list jsstring :=
  map (fun r => userId (f_session r)) (inFlight st).

(** Every suspended run belongs to a different user, and the flag of
    each of these users is set. *)
Definition gateInv (st : State) : Prop :=
  NoDup (inFlightUsers st) /\
  forall uid, uid ∈ inFlightUsers st -> isActive st uid = true.

(** The gate let the message through: the flag was clear and is set. *)
Definition granted (d : Disposition) : bool :=
  match d with
  | EmptyInput | CalledChat _ _ => true
  | FromBot | RejectedBusy => false
  end.

(** The three counters of a user, zero without a row. *)
Definition counters (db : gmap jsstring AIChatTokenUsage) (uid : jsstring)
    : Z * Z * Z :=
  let e := existingUsage db uid in
  (e_completionTokens e, e_promptTokens e, e_totalTokens e).





Definition userMessage (content : jsstring) : Message :=
  {| role := role_user; content := content |}.

Definition assistantMessage (text : jsstring) : Message :=
  {| role := role_assistant; content := text |}.

Definition leCounters (c1 c2 : Z * Z * Z) : Prop :=
  let '(a1, b1, d1) := c1 in
  let '(a2, b2, d2) := c2 in
  a1 <= a2 /\ b1 <= b2 /\ d1 <= d2.


(** The three sums of a merge as the code computes them. *)
Definition jsAddUsage (c : Z * Z * Z) (u : Usage) : Z * Z * Z :=
  let '(a, b, d) := c in
  (jsAdd a (completion_tokens u), jsAdd b (prompt_tokens u),
   jsAdd d (total_tokens u)).








(** No tag is left: no [<] with a [>] somewhere after it. *)
Fixpoint noTag (s : jsstring) : Prop :=
  match s with
  | [] => True
  | c :: r => (c = LT -> GT ∉ r) /\ noTag r
  end.

(** ** Command names (index.ts, [name], [commandName]) *)

Definition name : jsstring := Eval cbv in js "ai-chat".

(** [`${name}.${command}`] *)
Definition commandName (command : jsstring) : jsstring :=
  name ++ js "." ++ command.

(** ** Further notions used in the statements *)

(** No message of the conversation has the role [system]. *)
Definition noSystem (c : list Message) : Prop :=
  Forall (fun m => role m <> role_system) c.

(** At most one system message, and only at index 0. *)
Definition oneSystem (c : list Message) : Prop := noSystem (tail c).

(** Every conversation record that parses, and every context of a
    suspended run, has its system message at index 0 at most; the
    messages of a suspended request are the context of its run. *)
Definition storeInv (st : State) : Prop :=
  (forall uid c, files st !! uid = Some (Parsable c) -> oneSystem c) /\
  Forall (fun r => oneSystem (f_context r) /\
                   req_messages (f_body r) = f_context r) (inFlight st).

(** Every flag that is set belongs to a user with a suspended run. *)
Definition gateExact (st : State) : Prop :=
  forall uid, isActive st uid = true -> uid ∈ inFlightUsers st.

(** The message does not leave the middleware through one of the exits
    that lie between [activeChats.set] and [await fetch]. *)
Definition cleanDisposition (d : Disposition) : Prop :=
  match d with
  | EmptyInput | CalledChat _ ChatThrew | CalledChat _ ChatLoops => False
  | FromBot | RejectedBusy | CalledChat _ (ChatAwaitsFetch _ _) => True
  end.

Fixpoint cleanTrace (config : Config) (st : State) (evs : list Event) : Prop :=
  match evs with
  | [] => True
  | ev :: evs' =>
      match ev with
      | Inbound env session =>
          cleanDisposition (snd (middleware_receive config env st session))
      | _ => True
      end /\ cleanTrace config (step config st ev) evs'
  end.

(** The user an event is about. *)
Definition eventUser (ev : Event) : jsstring :=
  match ev with
  | Inbound _ session | ResetCommand _ session | HelpCommand session =>
      userId session
  | Completion _ uid _ => uid
  end.

(** A reply of the endpoint with the given usage and text. *)
Definition replyWith (status : Z) (u : option Usage) (text : jsstring)
    : FetchOutcome :=
  FetchResponse true status
    (Some {| usage := u; choices_0_message_content := Some text |}).

(** ** Sample data for the worked examples *)

Definition alice : jsstring := Eval cbv in js "alice".

Definition sampleConfig : Config :=
  {| model := js "gpt-3.5-turbo"; customModel := None;
     systemPrompt := Some (js "S"); helpMessage := js "help";
     maxTokens := 3000 |}.

(** Every external operation succeeds and no user is a bot. *)
Definition calmEnv : Env :=
  {| bots := fun _ => false; fs_read_ok := true; fs_write_ok := true;
     fs_unlink_ok := true; db_get_ok := true; db_upsert_ok := true;
     lark_user := Some (js "Alice", js "al") |}.

(** As [calmEnv], with [fs.writeFileSync] throwing. *)
Definition diskFullEnv : Env :=
  {| bots := fun _ => false; fs_read_ok := true; fs_write_ok := false;
     fs_unlink_ok := true; db_get_ok := true; db_upsert_ok := true;
     lark_user := Some (js "Alice", js "al") |}.

(** As [calmEnv], with the database unreachable. *)
Definition dbDownEnv : Env :=
  {| bots := fun _ => false; fs_read_ok := true; fs_write_ok := true;
     fs_unlink_ok := true; db_get_ok := false; db_upsert_ok := false;
     lark_user := None |}.



Definition says (uid : jsstring) (text : string) : Session :=
  {| userId := uid; username := js "Alice"; platform := js "discord";
     sessionContent := js text |}.

Definition sampleUsage : Usage :=
  {| completion_tokens := 5; prompt_tokens := 7; total_tokens := 12 |}.

Definition replyBody (text : string) : FetchOutcome :=
  FetchResponse true 200
    (Some {| usage := Some sampleUsage;
             choices_0_message_content := Some (js text) |}).

(** A record left by an earlier turn under the prompt ["OLD"]. *)
Definition staleContext : list Message :=
  [ {| role := role_system; content := js "OLD" ++ [10; 10]%N |};
    userMessage (js "a"); assistantMessage (js "b") ].

Definition staleFiles : gmap jsstring FileRecord :=
  {[ alice := Parsable staleContext ]}.

(** A record that does not parse. *)
Definition corruptFiles : gmap jsstring FileRecord :=
  {[ alice := Unparsable ]}.


Definition bob : jsstring := Eval cbv in js "bob".


(** A table whose row for [alice] carries a remark. *)
Definition remarkedTable : gmap jsstring AIChatTokenUsage :=
  {[ alice := {| id := alice; userName := js "Alice";
                 completionTokens := 1; promptTokens := 2; totalTokens := 3;
                 remark := js "vip" |} ]}.

(** ** Proof tactics *)



(** * Properties *)

(** ** Truncation *)

Section Truncation.

Lemma contentLength_from (ctx : list Message) (acc : Z) :
  fold_left (fun acc curr => acc + jslength (content curr)) ctx acc
  = acc + contentLength ctx.
Proof.
  unfold contentLength. revert acc.
  induction ctx as [|m ctx IH]; intros acc; cbn [fold_left].
  - lia.
  - rewrite (IH (acc + _)), (IH (0 + _)). lia.
Qed.

Lemma contentLength_cons (m : Message) (ctx : list Message) :
  contentLength (m :: ctx) = jslength (content m) + contentLength ctx.
Proof. unfold contentLength at 1. simpl. apply contentLength_from. Qed.

Lemma contentLength_nil : contentLength [] = 0.
Proof. reflexivity. Qed.

Lemma contentLength_app (l1 l2 : list Message) :
  contentLength (l1 ++ l2) = contentLength l1 + contentLength l2.
Proof.
  induction l1 as [|m l1 IH]; simpl.
  - rewrite contentLength_nil. lia.
  - rewrite !contentLength_cons, IH. lia.
Qed.

Lemma jslength_nonneg (s : jsstring) : 0 <= jslength s.
Proof. unfold jslength. lia. Qed.

Lemma contentLength_nonneg (ctx : list Message) : 0 <= contentLength ctx.
Proof.
  induction ctx as [|m ctx IH].
  - rewrite contentLength_nil. lia.
  - rewrite contentLength_cons. pose proof (jslength_nonneg (content m)). lia.
Qed.

(** A longer suffix weighs at least as much. *)
Lemma contentLength_suffix (r c : list Message) :
  r `suffix_of` c -> contentLength r <= contentLength c.
Proof.
  intros [k ->]. rewrite contentLength_app.
  pose proof (contentLength_nonneg k). lia.
Qed.

(** What the loop returns, whenever it returns. *)
Lemma truncate_loop_Some (fuel : nat) (c r : list Message) (b : Z) :
  truncate_loop fuel c b = Some r ->
  r `suffix_of` c /\ contentLength r <= b /\
  (forall r', r' `suffix_of` c -> (length r < length r')%nat ->
              b < contentLength r').
Proof.
  revert c. induction fuel as [|fuel IH]; intros c; simpl; [discriminate|].
  destruct (Z.gtb_spec (contentLength c) b) as [Hgt|Hle].
  - intros Hr. destruct (IH _ Hr) as (Hsuf & Hfit & Hmax).
    destruct c as [|m c]; simpl in *.
    + repeat split; auto.
    + repeat split; auto.
      * by apply suffix_cons_r.
      * intros r' Hr' Hlen. destruct r' as [|x r']; [simpl in Hlen; lia|].
        apply suffix_cons_inv in Hr' as [[= -> ->]|Hr']; [lia|]. by apply Hmax.
  - intros [= <-]. repeat split; [done | lia |].
    intros r' Hr' Hlen. apply suffix_length in Hr'. lia.
Qed.

(** With a budget that is not negative the loop exits after at most one
    test per message and one more. *)
Lemma truncate_loop_total (fuel : nat) (c : list Message) (b : Z) :
  0 <= b -> (length c < fuel)%nat -> is_Some (truncate_loop fuel c b).
Proof.
  intros Hb. revert c. induction fuel as [|fuel IH]; intros c Hlen; [lia|].
  simpl. destruct (Z.gtb_spec (contentLength c) b) as [Hgt|Hle]; [|by eexists].
  destruct c as [|m c]; simpl in *.
  - rewrite contentLength_nil in Hgt. lia.
  - apply IH. lia.
Qed.

Lemma truncate_loop_more_fuel (fuel fuel' : nat) (c r : list Message) (b : Z) :
  truncate_loop fuel c b = Some r -> (fuel <= fuel')%nat ->
  truncate_loop fuel' c b = Some r.
Proof.
  revert fuel' c. induction fuel as [|fuel IH]; intros fuel' c; [discriminate|].
  intros Hr Hle. destruct fuel' as [|fuel']; [lia|]. simpl in *.
  destruct (contentLength c >? b); [|done]. apply IH; [done | lia].
Qed.

(** With a negative budget the test of the loop never fails: no number
    of iterations is enough. *)
Lemma truncate_loop_diverges (fuel : nat) (c : list Message) (b : Z) :
  b < 0 -> truncate_loop fuel c b = None.
Proof.
  intros Hb. revert c. induction fuel as [|fuel IH]; intros c; [done|].
  simpl. pose proof (contentLength_nonneg c).
  destruct (Z.gtb_spec (contentLength c) b); [apply IH | lia].
Qed.

(** [truncateContextIfNeeded] answers [None] exactly when the loop of
    the source does not terminate. *)
Lemma truncate_None_diverges (c : list Message) (b : Z) :
  truncateContextIfNeeded c b = None <->
  forall fuel, truncate_loop fuel c b = None.
Proof.
  split.
  - intros HNone fuel. destruct (Z.lt_ge_cases b 0) as [Hb|Hb].
    + by apply truncate_loop_diverges.
    + destruct (truncate_loop_total (S (length c)) c b) as [r Hr]; [lia..|].
      unfold truncateContextIfNeeded in HNone. congruence.
  - intros H. apply H.
Qed.

Lemma truncate_Some_nonneg (c r : list Message) (b : Z) :
  truncateContextIfNeeded c b = Some r -> 0 <= b.
Proof.
  intros Hr. destruct (Z.lt_ge_cases b 0) as [Hb|Hb]; [|done].
  unfold truncateContextIfNeeded in Hr.
  rewrite truncate_loop_diverges in Hr; [discriminate | done].
Qed.

(** Totality and the two facts about the result, for reuse. *)
Lemma truncate_longest_suffix_budget_aux (c : list Message) (b : Z) :
  0 <= b ->
  exists r, truncateContextIfNeeded c b = Some r /\
            r `suffix_of` c /\ contentLength r <= b.
Proof.
  intros Hb.
  destruct (truncate_loop_total (S (length c)) c b) as [r Hr]; [lia..|].
  exists r. destruct (truncate_loop_Some _ _ _ _ Hr) as (Hsuf & Hfit & _).
  done.
Qed.

End Truncation.

(** C2 (as amended).  For every conversation and every budget that is
    not negative, [truncateContextIfNeeded] terminates: it removes the
    oldest message while the content lengths of the remaining ones sum
    to more than the budget and stops as soon as the sum is within the
    budget.  The result is the longest suffix of the conversation whose
    sum is within the budget; it is empty exactly when the conversation
    is empty or its newest message alone exceeds the budget, so a single
    remaining message that is over the budget is removed as well. *)
Theorem truncate_longest_suffix_within_budget (c : list Message) (b : Z) :
  0 <= b ->
  exists r,
    truncateContextIfNeeded c b = Some r /\
    (forall fuel, (length c < fuel)%nat -> truncate_loop fuel c b = Some r) /\
    r `suffix_of` c /\
    contentLength r <= b /\
    (forall r', r' `suffix_of` c -> (length r < length r')%nat ->
                b < contentLength r') /\
    (r = [] <-> forall m, last c = Some m -> b < jslength (content m)).
Proof.
  intros Hb.
  destruct (truncate_loop_total (S (length c)) c b) as [r Hr]; [lia..|].
  exists r. destruct (truncate_loop_Some _ _ _ _ Hr) as (Hsuf & Hfit & Hmax).
  split; [exact Hr|]. split.
  { intros fuel Hfuel. apply (truncate_loop_more_fuel _ _ _ _ _ Hr). lia. }
  do 3 (split; [done|]). split.
  - intros -> m Hm.
    assert (Hone : [m] `suffix_of` c).
    { destruct c as [|x c] using rev_ind; [discriminate|].
      rewrite last_snoc in Hm. injection Hm as ->. by apply suffix_app_r. }
    specialize (Hmax [m] Hone). rewrite contentLength_cons, contentLength_nil in Hmax.
    simpl in Hmax. lia.
  - intros Hlast. destruct r as [|x r] using rev_ind; [done|]. exfalso.
    destruct Hsuf as [k ->]. rewrite app_assoc in Hlast.
    specialize (Hlast x (last_snoc _ _)).
    rewrite contentLength_app, contentLength_cons, contentLength_nil in Hfit.
    pose proof (contentLength_nonneg r). lia.
Qed.

Lemma truncate_longest_suffix_within_budget_witness :
  0 <= 3 /\
  exists r,
    truncateContextIfNeeded
      [ {| role := role_user; content := js "hello" |};
        {| role := role_assistant; content := js "hi" |} ] 3 = Some r /\
    contentLength r <= 3.
Proof.
  split; [lia|].
  destruct (truncate_longest_suffix_within_budget
              [ {| role := role_user; content := js "hello" |};
                {| role := role_assistant; content := js "hi" |} ] 3)
    as (r & Hr & _ & _ & Hfit & _); [lia|].
  exists r. split; [exact Hr | exact Hfit].
Defined.

(** C2 as stated fails: the only message of a conversation is removed
    when it alone is over the budget, and the result is empty. *)
Lemma truncate_removes_last_message :
  let c := [ {| role := role_user; content := js "hello" |} ] in
  c <> [] /\ length c = 1%nat /\ truncateContextIfNeeded c 3 = Some [] /\
  ~ (exists r, truncateContextIfNeeded c 3 = Some r /\ r <> []).
Proof.
  simpl. split; [discriminate|]. split; [reflexivity|]. split; [reflexivity|].
  intros (r & Hr & Hne). vm_compute in Hr. congruence.
Qed.

(** ** Normalisation *)

Section Normalisation.

Lemma trimStart_spec (s : jsstring) :
  exists pre, s = pre ++ trimStart s /\ Forall whiteSpace pre /\
              (forall c, head (trimStart s) = Some c -> ~ whiteSpace c).
Proof.
  induction s as [|c s (pre & Heq & Hpre & Hhd)]; simpl.
  - exists []. repeat split; [constructor | discriminate].
  - destruct (isWhiteSpace c) eqn:Hc.
    + exists (c :: pre). simpl. rewrite <- Heq. repeat split; auto.
    + exists []. simpl. repeat split; [constructor|].
      intros c' [= <-]. unfold whiteSpace. congruence.
Qed.

Lemma last_rev_head {A} (l : list A) : last (rev l) = head l.
Proof. destruct l as [|x l]; [done|]. simpl. apply last_snoc. Qed.

(** [trim] removes a run of white space at each end and nothing else,
    and what it returns neither starts nor ends with white space. *)
Lemma trim_spec (s : jsstring) :
  exists pre post,
    s = pre ++ trim s ++ post /\ Forall whiteSpace pre /\ Forall whiteSpace post /\
    (forall c, head (trim s) = Some c -> ~ whiteSpace c) /\
    (forall c, last (trim s) = Some c -> ~ whiteSpace c).
Proof.
  unfold trim.
  destruct (trimStart_spec s) as (pre & Hs & Hpre & Hhd).
  destruct (trimStart_spec (rev (trimStart s))) as (q & Ht & Hq & Hlast).
  set (t := trimStart s) in *. set (u := trimStart (rev t)) in *.
  assert (Htu : t = rev u ++ rev q).
  { rewrite <- rev_app_distr, <- Ht. by rewrite rev_involutive. }
  exists pre, (rev q). split; [by rewrite <- Htu|].
  split; [done|]. split; [by apply Forall_rev|]. split.
  - intros c Hc. apply Hhd. rewrite Htu.
    destruct (rev u) as [|x v]; [discriminate|]. exact Hc.
  - intros c Hc. apply Hlast. by rewrite <- last_rev_head.
Qed.

(** [matchTagTail] finds the first [>]. *)
Lemma matchTagTail_Some (s rest : jsstring) :
  matchTagTail s = Some rest <->
  exists body, s = body ++ GT :: rest /\ GT ∉ body.
Proof.
  revert rest. induction s as [|c s IH]; intros rest; simpl.
  - split; [discriminate|]. intros ([|] & ? & _); discriminate.
  - destruct (N.eqb_spec c GT) as [->|Hc].
    + split.
      * intros [= ->]. exists []. split; [done | apply not_elem_of_nil].
      * intros ([|x body] & Heq & Hbody); simpl in Heq; simplify_eq; [done|].
        exfalso. apply Hbody. left.
    + rewrite IH. split.
      * intros (body & -> & Hbody). exists (c :: body). split; [done|].
        apply not_elem_of_cons. done.
      * intros ([|x body] & Heq & Hbody); simpl in Heq; simplify_eq.
        exists body. split; [done|]. apply not_elem_of_cons in Hbody. tauto.
Qed.

Lemma matchTagTail_None (s : jsstring) :
  matchTagTail s = None <-> GT ∉ s.
Proof.
  induction s as [|c s IH]; simpl.
  - split; [intros _; apply not_elem_of_nil | done].
  - destruct (N.eqb_spec c GT) as [->|Hc].
    + split; [discriminate|]. intros H. exfalso. apply H. left.
    + rewrite IH, not_elem_of_cons. split; [intros H; split; [intros E; by apply Hc | done] | tauto].
Qed.

(** The pattern [<[^>]*>] matches at the head of [s] exactly when [s]
    starts with [<], some code units other than [>], and [>]. *)
Lemma matchTag_Some (s rest : jsstring) :
  matchTag s = Some rest <->
  exists body, s = LT :: body ++ GT :: rest /\ GT ∉ body.
Proof.
  destruct s as [|c s]; simpl.
  - split; [discriminate|]. intros (? & ? & _); discriminate.
  - destruct (N.eqb_spec c LT) as [->|Hc].
    + rewrite matchTagTail_Some. split.
      * intros (body & -> & H). by exists body.
      * intros (body & [= ->] & H). by exists body.
    + split; [discriminate|]. intros (? & [= ? ?] & _). done.
Qed.

Lemma matchTag_shorter (s rest : jsstring) :
  matchTag s = Some rest -> (S (length rest) < length s)%nat.
Proof.
  rewrite matchTag_Some. intros (body & -> & _).
  simpl. rewrite length_app. simpl. lia.
Qed.

Lemma matchTag_sublist (s rest : jsstring) :
  matchTag s = Some rest -> rest `sublist_of` s.
Proof.
  rewrite matchTag_Some. intros (body & -> & _).
  apply sublist_cons, sublist_inserts_l, sublist_cons. done.
Qed.

(** Enough fuel: the scan never needs more steps than the string has
    code units. *)
Lemma removeTags_loop_enough (fuel : nat) (s : jsstring) :
  (length s <= fuel)%nat -> removeTags_loop fuel s = removeTags s.
Proof.
  unfold removeTags. revert s.
  induction (lt_wf fuel) as [fuel _ IH]. intros s Hlen.
  destruct s as [|c s]; [by destruct fuel|].
  destruct fuel as [|fuel]; [simpl in Hlen; lia|].
  cbn [removeTags_loop length].
  destruct (matchTag (c :: s)) as [rest|] eqn:Hm.
  - apply matchTag_shorter in Hm as Hlt. simpl in Hlt, Hlen.
    rewrite (IH fuel), (IH (length s)); first done; lia.
  - simpl in Hlen. f_equal. rewrite (IH fuel); first done; lia.
Qed.

(** The two equations of the global replacement. *)
Lemma removeTags_nil : removeTags [] = [].
Proof. reflexivity. Qed.

Lemma removeTags_cons (c : code_unit) (r : jsstring) :
  removeTags (c :: r) =
  match matchTag (c :: r) with
  | Some rest => removeTags rest
  | None => c :: removeTags r
  end.
Proof.
  unfold removeTags at 1. cbn [length removeTags_loop].
  destruct (matchTag (c :: r)) as [rest|] eqn:Hm.
  - apply removeTags_loop_enough. apply matchTag_shorter in Hm. simpl in Hm. lia.
  - f_equal.
Qed.

Lemma removeTags_ind (P : jsstring -> Prop) :
  P [] ->
  (forall c r rest, matchTag (c :: r) = Some rest -> P rest -> P (c :: r)) ->
  (forall c r, matchTag (c :: r) = None -> P r -> P (c :: r)) ->
  forall s, P s.
Proof.
  intros Hnil Hsome Hnone s.
  remember (length s) as n eqn:Hn. revert s Hn.
  induction (lt_wf n) as [n _ IH]. intros s ->.
  destruct s as [|c r]; [done|].
  destruct (matchTag (c :: r)) as [rest|] eqn:Hm.
  - apply (Hsome _ _ _ Hm). apply (IH (length rest)); [|done].
    apply matchTag_shorter in Hm. lia.
  - apply (Hnone _ _ Hm). apply (IH (length r)); [simpl; lia | done].
Qed.

Lemma removeTags_sublist (s : jsstring) : removeTags s `sublist_of` s.
Proof.
  induction s as [|c r rest Hm IH|c r Hm IH] using removeTags_ind.
  - done.
  - rewrite removeTags_cons, Hm. etrans; [exact IH|]. by apply matchTag_sublist.
  - rewrite removeTags_cons, Hm. by apply sublist_skip.
Qed.

Lemma removeTags_noTag (s : jsstring) : noTag (removeTags s).
Proof.
  induction s as [|c r rest Hm IH|c r Hm IH] using removeTags_ind.
  - exact I.
  - by rewrite removeTags_cons, Hm.
  - rewrite removeTags_cons, Hm. split; [|done].
    intros -> Hin. simpl in Hm. apply matchTagTail_None in Hm. apply Hm.
    eapply elem_of_sublist; [exact Hin|]. apply removeTags_sublist.
Qed.

End Normalisation.

(** ** Dispatcher: what reaches the orchestrator *)

Section Dispatcher.

Lemma middleware_receive_called (config : Config) (env : Env) (st : State)
    (session : Session) (input : jsstring) (start : ChatStart) :
  snd (middleware_receive config env st session) = CalledChat input start ->
  bots env (userId session) = false /\
  isActive st (userId session) = false /\
  input = normalize (sessionContent session) /\
  input <> [] /\
  start = chat_start config env (files st) session input.
Proof.
  unfold middleware_receive.
  destruct (bots env (userId session)); [discriminate|].
  destruct (isActive st (userId session)); [discriminate|].
  unfold jseqb. case_bool_decide as Hin; [discriminate|].
  cbn [files setActiveChats].
  destruct (chat_start config env (files st) session
              (normalize (sessionContent session))) eqn:Hstart;
    cbn [snd]; intros [= <- <-]; repeat split; auto.
Qed.

End Dispatcher.

(** C9.  Whenever the middleware calls [chat], the text it hands over is
    the message content with the white space at both ends trimmed and,
    after that, every match of [<[^>]*>] removed: it is what is left of
    the trimmed content (a sublist of it), it holds no [<] that is
    followed by a [>], and it is not empty.  A message whose normalised
    text is empty is never handed to [chat]. *)
Theorem middleware_hands_normalized_text (config : Config) (env : Env)
    (st : State) (session : Session) :
  (forall input start,
     snd (middleware_receive config env st session) = CalledChat input start ->
     let trimmed := trim (sessionContent session) in
     input = removeTags trimmed /\
     (exists pre post,
        sessionContent session = pre ++ trimmed ++ post /\
        Forall whiteSpace pre /\ Forall whiteSpace post) /\
     (forall c, head trimmed = Some c -> ~ whiteSpace c) /\
     (forall c, last trimmed = Some c -> ~ whiteSpace c) /\
     input `sublist_of` trimmed /\
     noTag input /\
     input <> [] /\
     start = chat_start config env (files st) session input) /\
  (removeTags (trim (sessionContent session)) = [] ->
   forall input start,
     snd (middleware_receive config env st session) <> CalledChat input start).
Proof.
  split.
  - intros input start Hcall trimmed.
    destruct (middleware_receive_called _ _ _ _ _ _ Hcall)
      as (_ & _ & Hin & Hne & Hstart).
    destruct (trim_spec (sessionContent session))
      as (pre & post & Hsplit & Hpre & Hpost & Hhd & Hlast).
    unfold normalize in Hin. fold trimmed in Hin, Hsplit, Hhd, Hlast.
    split; [done|]. split; [by exists pre, post|].
    do 2 (split; [done|]).
    split; [subst input; apply removeTags_sublist|].
    split; [subst input; apply removeTags_noTag|]. done.
  - intros Hempty input start Hcall.
    destruct (middleware_receive_called _ _ _ _ _ _ Hcall)
      as (_ & _ & Hin & Hne & _).
    unfold normalize in Hin. congruence.
Qed.

Lemma middleware_hands_normalized_text_witness :
  snd (middleware_receive sampleConfig calmEnv (initial ∅ ∅)
         (says alice "  <b>hi</b> there  "))
  = CalledChat (js "hi there")
      (chat_start sampleConfig calmEnv ∅ (says alice "  <b>hi</b> there  ")
         (js "hi there")) /\
  js "hi there" = removeTags (trim (js "  <b>hi</b> there  ")) /\
  noTag (js "hi there").
Proof.
  assert (Hcall :
    snd (middleware_receive sampleConfig calmEnv (initial ∅ ∅)
           (says alice "  <b>hi</b> there  "))
    = CalledChat (js "hi there")
        (chat_start sampleConfig calmEnv ∅ (says alice "  <b>hi</b> there  ")
           (js "hi there"))) by (vm_compute; reflexivity).
  split; [exact Hcall|].
  destruct (middleware_hands_normalized_text sampleConfig calmEnv (initial ∅ ∅)
              (says alice "  <b>hi</b> there  ")) as [Hgiven _].
  destruct (Hgiven _ _ Hcall) as (Heq & _ & _ & _ & _ & Hno & _).
  split; [exact Heq | exact Hno].
Defined.

(** ** Concurrency gate *)

Section Gate.

Variable config : Config.

Lemma isActive_insert (st : State) (uid uid' : jsstring) :
  isActive (setActiveChats st (<[uid := true]> (activeChats st))) uid'
  = if decide (uid = uid') then true else isActive st uid'.
Proof.
  unfold isActive. cbn [activeChats setActiveChats].
  rewrite lookup_insert. by case_decide.
Qed.

Lemma takeInFlight_Some (uid : jsstring) (l rest : list InFlight)
    (found : InFlight) :
  takeInFlight uid l = Some (found, rest) ->
  userId (f_session found) = uid /\
  exists l1 l2, l = l1 ++ found :: l2 /\ rest = l1 ++ l2.
Proof.
  revert rest. induction l as [|r l IH]; intros rest; simpl; [discriminate|].
  unfold jseqb. case_bool_decide as Hr.
  - intros [= <- <-]. split; [done|]. by exists [], l.
  - destruct (takeInFlight uid l) as [[f rest']|]; [|discriminate].
    intros [= <- <-]. destruct (IH _ eq_refl) as (Hid & l1 & l2 & -> & ->).
    split; [done|]. by exists (r :: l1), l2.
Qed.

Lemma takeInFlight_None (uid : jsstring) (l : list InFlight) :
  takeInFlight uid l = None ->
  uid ∉ map (fun r => userId (f_session r)) l.
Proof.
  induction l as [|r l IH]; simpl; [intros _; apply not_elem_of_nil|].
  unfold jseqb. case_bool_decide as Hr; [discriminate|].
  destruct (takeInFlight uid l) as [[f rest']|]; [discriminate|].
  intros _. apply not_elem_of_cons. split; [by intros E; apply Hr | by apply IH].
Qed.

Lemma gateInv_receive (env : Env) (st : State) (session : Session) :
  gateInv st -> gateInv (fst (middleware_receive config env st session)).
Proof.
  intros [Hnd Hact]. unfold middleware_receive.
  destruct (bots env (userId session)); [done|].
  destruct (isActive st (userId session)) eqn:Hflag; [done|].
  set (st1 := setActiveChats st _).
  assert (Hinv1 : forall uid, uid ∈ inFlightUsers st -> isActive st1 uid = true).
  { intros uid Hin. unfold st1. rewrite isActive_insert.
    case_decide; [done | by apply Hact]. }
  destruct (jseqb (normalize (sessionContent session)) []); [done|].
  destruct (chat_start _ _ _ _ _); [done | done |]. cbn [fst].
  unfold gateInv, inFlightUsers. cbn [inFlight setInFlight setActiveChats].
  rewrite map_app. cbn [map]. split.
  - apply NoDup_app. split; [exact Hnd|]. split; [|apply NoDup_singleton].
    intros uid Hin ->%list_elem_of_singleton.
    apply Hact in Hin. cbn [f_session] in Hin. congruence.
  - intros uid [Hin| ->%list_elem_of_singleton]%elem_of_app.
    + by apply Hinv1.
    + cbn [f_session]. unfold isActive. subst st1.
      cbn [activeChats setActiveChats setInFlight].
      by rewrite lookup_insert_eq.
Qed.

Lemma gateInv_step (st : State) (ev : Event) :
  gateInv st -> gateInv (step config st ev).
Proof.
  intros Hinv. destruct ev as [env session|env uid outcome|env session|session];
    cbn [step].
  - by apply gateInv_receive.
  - destruct (takeInFlight uid (inFlight st)) as [[found rest]|] eqn:Htake;
      [|done].
    destruct Hinv as [Hnd Hact].
    apply takeInFlight_Some in Htake as (Hid & l1 & l2 & Hl & ->).
    unfold inFlightUsers in Hnd, Hact. rewrite Hl, map_app in Hnd, Hact.
    cbn [map] in Hnd, Hact. rewrite Hid in Hnd, Hact.
    apply NoDup_app in Hnd as (Hnd1 & Hdisj & Hnd2).
    apply NoDup_cons in Hnd2 as [Hfresh Hnd2].
    unfold gateInv, inFlightUsers, middleware_resume.
    cbn [inFlight setInFlight activeChats files database]. rewrite map_app, Hid.
    split.
    + apply NoDup_app. split; [done|]. split; [|done].
      intros x Hx Hx2. apply (Hdisj x Hx). by right.
    + intros x Hx. unfold isActive. cbn [activeChats].
      assert (x <> uid) as Hne.
      { intros ->. apply elem_of_app in Hx as [Hx|Hx]; [|done].
        apply (Hdisj uid Hx). left. }
      rewrite lookup_delete_ne; [|done].
      apply (Hact x). apply elem_of_app in Hx as [Hx|Hx];
        apply elem_of_app; [by left | right; by right].
  - unfold command_reset. by destruct (resetContext _ _ _).
  - done.
Qed.

Lemma gateInv_run (st : State) (evs : list Event) :
  gateInv st -> gateInv (run config st evs).
Proof.
  unfold run. revert st. induction evs as [|ev evs IH]; intros st Hinv; [done|].
  simpl. apply IH. by apply gateInv_step.
Qed.

Lemma gateInv_initial (files0 : gmap jsstring FileRecord)
    (database0 : gmap jsstring AIChatTokenUsage) :
  gateInv (initial files0 database0).
Proof. split; [constructor | intros uid Hin; by apply elem_of_nil in Hin]. Qed.

End Gate.

Lemma middleware_receive_busy (config : Config) (env : Env) (st : State)
    (session : Session) :
  bots env (userId session) = false ->
  isActive st (userId session) = true ->
  middleware_receive config env st session
  = (send st (userId session) busyMessage, RejectedBusy).
Proof. intros Hbot Hflag. unfold middleware_receive. by rewrite Hbot, Hflag. Qed.

Lemma middleware_receive_granted (config : Config) (env : Env) (st : State)
    (session : Session) :
  bots env (userId session) = false ->
  isActive st (userId session) = false ->
  granted (snd (middleware_receive config env st session)) = true /\
  isActive (fst (middleware_receive config env st session)) (userId session)
  = true /\
  sent (fst (middleware_receive config env st session)) = sent st.
Proof.
  intros Hbot Hflag. unfold middleware_receive. rewrite Hbot, Hflag.
  assert (Hset : isActive (setActiveChats st
                   (<[userId session := true]> (activeChats st)))
                   (userId session) = true).
  { rewrite isActive_insert. by case_decide. }
  destruct (jseqb _ _); [done|].
  by destruct (chat_start _ _ _ _ _).
Qed.

Lemma granted_was_clear (config : Config) (env : Env) (st : State)
    (session : Session) :
  granted (snd (middleware_receive config env st session)) = true ->
  bots env (userId session) = false /\ isActive st (userId session) = false.
Proof.
  unfold middleware_receive.
  destruct (bots env (userId session)); [discriminate|].
  destruct (isActive st (userId session)); [discriminate|]. done.
Qed.

(** C8.  In every state the plugin can reach, no user has two runs of
    the orchestrator in flight, and the flag of every user with a run
    in flight is set.  While a user's flag is set, a message of that
    user gets the busy reply at once and nothing else happens: [chat]
    is not called and no run is added.  The gate lets a message through
    only when the user's flag is clear, and it always does so then,
    setting the flag.  (Messages of the bots themselves are passed on
    before the gate and are not subject to it.) *)
Theorem gate_single_flight (config : Config)
    (files0 : gmap jsstring FileRecord)
    (database0 : gmap jsstring AIChatTokenUsage) (evs : list Event) :
  let st := run config (initial files0 database0) evs in
  NoDup (inFlightUsers st) /\
  (forall uid, uid ∈ inFlightUsers st -> isActive st uid = true) /\
  (forall env session,
     bots env (userId session) = false ->
     isActive st (userId session) = true ->
     middleware_receive config env st session
     = (send st (userId session) busyMessage, RejectedBusy)) /\
  (forall env session,
     granted (snd (middleware_receive config env st session)) = true ->
     isActive st (userId session) = false) /\
  (forall env session,
     bots env (userId session) = false ->
     isActive st (userId session) = false ->
     let after := middleware_receive config env st session in
     granted (snd after) = true /\
     isActive (fst after) (userId session) = true /\
     sent (fst after) = sent st).
Proof.
  intros st.
  destruct (gateInv_run config _ evs (gateInv_initial files0 database0))
    as [Hnd Hact].
  split; [exact Hnd|]. split; [exact Hact|]. split.
  { intros env session. apply middleware_receive_busy. }
  split.
  { intros env session Hg. by apply granted_was_clear in Hg as [_ ?]. }
  intros env session Hbot Hflag. by apply middleware_receive_granted.
Qed.

Lemma gate_single_flight_witness :
  let st := run sampleConfig (initial ∅ ∅)
              [Inbound calmEnv (says alice "hello")] in
  inFlightUsers st = [alice] /\
  isActive st alice = true /\
  middleware_receive sampleConfig calmEnv st (says alice "again")
  = (send st alice busyMessage, RejectedBusy).
Proof.
  intros st. split; [vm_compute; reflexivity|].
  destruct (gate_single_flight sampleConfig ∅ ∅
              [Inbound calmEnv (says alice "hello")])
    as (_ & Hact & Hbusy & _).
  assert (Hflag : isActive st alice = true).
  { apply Hact. vm_compute. left. }
  split; [exact Hflag|].
  apply (Hbusy calmEnv (says alice "again")); [reflexivity | exact Hflag].
Defined.

(** ** The flag on the exit paths of the middleware (C1) *)

(** A message that is let through and whose normalised text is empty
    leaves the flag set: the middleware returns [next()] before
    [activeChats.delete]. *)
Lemma empty_input_keeps_flag (config : Config) (env : Env) (st : State)
    (session : Session) :
  bots env (userId session) = false ->
  isActive st (userId session) = false ->
  normalize (sessionContent session) = [] ->
  snd (middleware_receive config env st session) = EmptyInput /\
  isActive (fst (middleware_receive config env st session)) (userId session)
  = true /\
  inFlight (fst (middleware_receive config env st session)) = inFlight st.
Proof.
  intros Hbot Hflag Hempty. unfold middleware_receive.
  rewrite Hbot, Hflag, Hempty.
  replace (jseqb [] []) with true by reflexivity. cbn [fst snd].
  split; [done|]. split; [|done].
  rewrite isActive_insert. by case_decide.
Qed.

(** The same when [chat] throws before its [try] block. *)
Lemma chat_throw_keeps_flag (config : Config) (env : Env) (st : State)
    (session : Session) (input : jsstring) :
  snd (middleware_receive config env st session) = CalledChat input ChatThrew ->
  isActive (fst (middleware_receive config env st session)) (userId session)
  = true /\
  inFlight (fst (middleware_receive config env st session)) = inFlight st.
Proof.
  unfold middleware_receive.
  destruct (bots env (userId session)); [discriminate|].
  destruct (isActive st (userId session)); [discriminate|].
  destruct (jseqb _ _); [discriminate|].
  destruct (chat_start _ _ _ _ _); cbn [snd fst]; try discriminate.
  intros _. split; [|done]. rewrite isActive_insert. by case_decide.
Qed.


(** With a configuration the schema accepts, the truncation loop of
    [chat] always exits. *)
Lemma valid_config_never_loops (config : Config) (env : Env)
    (files : gmap jsstring FileRecord) (session : Session)
    (content : jsstring) :
  validConfig config ->
  chat_start config env files session content <> ChatLoops.
Proof.
  intros [Hlo _]. unfold chat_start.
  destruct (loadContext env files (userId session)) as [loaded|]; [|done].
  destruct (truncate_longest_suffix_budget_aux
              (dropSystemPrompt loaded ++
               [ {| role := role_user; content := content |} ])
              (maxTokens config)) as (kept & -> & _); [lia | done].
Qed.

(** C1, at the failing input.  A user sends a message of blanks and
    then a real one: the first is let through, sets the flag and leaves
    no run in flight; the second one, arriving when nothing of that user
    is being processed, still finds the flag set and gets the busy
    reply. *)
Example flag_stuck_after_empty_input :
  let st := run sampleConfig (initial ∅ ∅)
              [Inbound calmEnv (says alice "   ")] in
  snd (middleware_receive sampleConfig calmEnv (initial ∅ ∅)
         (says alice "   ")) = EmptyInput /\
  inFlight st = [] /\
  isActive st alice = true /\
  middleware_receive sampleConfig calmEnv st (says alice "hello")
  = (send st alice busyMessage, RejectedBusy).
Proof. vm_compute. repeat split; reflexivity. Qed.

(** ** Orchestrator *)

Section Orchestrator.

Lemma dropSystemPrompt_system (m : Message) (rest : list Message) :
  role m = role_system -> dropSystemPrompt (m :: rest) = rest.
Proof.
  intros Hm. unfold dropSystemPrompt, jseqb.
  by rewrite bool_decide_eq_true_2.
Qed.

Lemma dropSystemPrompt_other (m : Message) (rest : list Message) :
  role m <> role_system -> dropSystemPrompt (m :: rest) = m :: rest.
Proof.
  intros Hm. unfold dropSystemPrompt, jseqb.
  by rewrite bool_decide_eq_false_2.
Qed.

Lemma systemMessage_configured (config : Config) (p : jsstring) :
  systemPrompt config = Some p -> p <> [] ->
  systemMessage config
  = [ {| role := role_system; content := p ++ [10; 10]%N |} ].
Proof.
  intros Hp Hne. unfold systemMessage. rewrite Hp.
  destruct p as [|c p]; [done|]. reflexivity.
Qed.

Lemma systemMessage_unset (config : Config) :
  systemPrompt config = None \/ systemPrompt config = Some [] ->
  systemMessage config = [].
Proof. unfold systemMessage. by intros [-> | ->]. Qed.

Lemma chat_start_awaits (config : Config) (env : Env)
    (files : gmap jsstring FileRecord) (session : Session)
    (content : jsstring) (loaded kept : list Message) :
  loadContext env files (userId session) = Ok loaded ->
  truncateContextIfNeeded (dropSystemPrompt loaded ++ [userMessage content])
    (maxTokens config) = Some kept ->
  exists body,
    chat_start config env files session content
    = ChatAwaitsFetch (systemMessage config ++ kept) body /\
    req_messages body = systemMessage config ++ kept.
Proof.
  intros Hload Hkept. unfold chat_start. rewrite Hload.
  unfold userMessage in Hkept. rewrite Hkept. eexists. split; reflexivity.
Qed.

(** The run of the [try] block on a body that has a reply text. *)
Lemma chat_settle_reply (env : Env) (files : gmap jsstring FileRecord)
    (db : gmap jsstring AIChatTokenUsage) (session : Session)
    (context : list Message) (status : Z) (u : option Usage)
    (text : jsstring) :
  chat_settle env files db session context
    (FetchResponse true status
       (Some {| usage := u; choices_0_message_content := Some text |}))
  = let merged := updateTokenUsage env db session u in
    if fs_write_ok env then
      {| s_text := text;
         s_files := <[userId session :=
                        Parsable (context ++ [assistantMessage text])]> files;
         s_database := fst merged;
         s_errors := usageErrors (snd merged) |}
    else
      {| s_text := []; s_files := files; s_database := fst merged;
         s_errors := ChatError (userId session) :: usageErrors (snd merged) |}.
Proof.
  unfold chat_settle, saveContext. cbn [negb usage choices_0_message_content].
  destruct (updateTokenUsage env db session u) as [db' uerr].
  by destruct (fs_write_ok env).
Qed.

(** When reading the reply text throws, the [catch] clause takes over
    after the ledger was called. *)
Lemma chat_settle_no_choices (env : Env) (files : gmap jsstring FileRecord)
    (db : gmap jsstring AIChatTokenUsage) (session : Session)
    (context : list Message) (status : Z) (u : option Usage) :
  chat_settle env files db session context
    (FetchResponse true status
       (Some {| usage := u; choices_0_message_content := None |}))
  = let merged := updateTokenUsage env db session u in
    {| s_text := []; s_files := files; s_database := fst merged;
       s_errors := ChatError (userId session) :: usageErrors (snd merged) |}.
Proof.
  unfold chat_settle. cbn [negb usage choices_0_message_content].
  by destruct (updateTokenUsage env db session u) as [db' uerr].
Qed.


Lemma updateTokenUsage_no_usage (env : Env)
    (db : gmap jsstring AIChatTokenUsage) (session : Session) :
  updateTokenUsage env db session None = (db, true).
Proof.
  unfold updateTokenUsage, updateTokenUsage_try.
  destruct (db_get_ok env); [|done].
  by destruct (resolveUserName _ _ _).
Qed.


End Orchestrator.

(** C4.  In every turn whose conversation loads, a leading system
    message of the loaded conversation is dropped, the user message is
    appended, the result is truncated, and only then the system message
    of the current configuration (the configured prompt followed by two
    line feeds, when the prompt is not empty) is put in front.  The
    truncation never sees that message: what it keeps is a suffix of the
    working sequence within the budget, whatever the prompt.  After a
    successful turn the persisted conversation is the current system
    message, the kept messages and the reply. *)
Theorem chat_rebuilds_system_prompt (config : Config) (env : Env)
    (files : gmap jsstring FileRecord) (session : Session)
    (content : jsstring) (loaded : list Message) :
  0 <= maxTokens config ->
  loadContext env files (userId session) = Ok loaded ->
  let working := dropSystemPrompt loaded ++ [userMessage content] in
  exists kept,
    truncateContextIfNeeded working (maxTokens config) = Some kept /\
    kept `suffix_of` working /\
    contentLength kept <= maxTokens config /\
    (exists body,
       chat_start config env files session content
       = ChatAwaitsFetch (systemMessage config ++ kept) body /\
       req_messages body = systemMessage config ++ kept) /\
    (forall m rest, loaded = m :: rest -> role m = role_system ->
                    dropSystemPrompt loaded = rest) /\
    (forall m rest, loaded = m :: rest -> role m <> role_system ->
                    dropSystemPrompt loaded = loaded) /\
    (forall p, systemPrompt config = Some p -> p <> [] ->
               systemMessage config
               = [ {| role := role_system; content := p ++ [10; 10]%N |} ]) /\
    (systemPrompt config = None \/ systemPrompt config = Some [] ->
     systemMessage config = []) /\
    (forall env' db status u text,
       fs_write_ok env' = true ->
       s_files (chat_settle env' files db session (systemMessage config ++ kept)
                  (FetchResponse true status
                     (Some {| usage := u;
                              choices_0_message_content := Some text |})))
         !! userId session
       = Some (Parsable (systemMessage config ++ kept ++
                         [assistantMessage text]))) /\
    (forall p text, systemPrompt config = Some p -> p <> [] ->
       head (systemMessage config ++ kept ++ [assistantMessage text])
       = Some {| role := role_system; content := p ++ [10; 10]%N |}).
Proof.
  intros Hb Hload working.
  destruct (truncate_longest_suffix_budget_aux working (maxTokens config) Hb)
    as (kept & Hkept & Hsuf & Hfit).
  exists kept. split; [exact Hkept|]. do 2 (split; [done|]).
  split; [by eapply chat_start_awaits|].
  split; [intros m rest -> Hm; by apply dropSystemPrompt_system|].
  split; [intros m rest -> Hm; by apply dropSystemPrompt_other|].
  split; [apply systemMessage_configured|].
  split; [apply systemMessage_unset|].
  split.
  - intros env' db status u text Hw. rewrite chat_settle_reply. cbn zeta.
    rewrite Hw. cbn [s_files]. rewrite lookup_insert_eq.
    by rewrite <- app_assoc.
  - intros p text Hp Hne. by rewrite (systemMessage_configured _ _ Hp Hne).
Qed.

Lemma chat_rebuilds_system_prompt_witness :
  0 <= maxTokens sampleConfig /\
  loadContext calmEnv staleFiles alice = Ok staleContext /\
  exists kept,
    truncateContextIfNeeded
      (dropSystemPrompt staleContext ++ [userMessage (js "hello")])
      (maxTokens sampleConfig) = Some kept /\
    exists body,
      chat_start sampleConfig calmEnv staleFiles (says alice "hello")
        (js "hello")
      = ChatAwaitsFetch (systemMessage sampleConfig ++ kept) body.
Proof.
  assert (Hb : 0 <= maxTokens sampleConfig) by (vm_compute; discriminate).
  assert (Hload : loadContext calmEnv staleFiles (userId (says alice "hello"))
                  = Ok staleContext) by (vm_compute; reflexivity).
  split; [exact Hb|]. split; [exact Hload|].
  destruct (chat_rebuilds_system_prompt sampleConfig calmEnv staleFiles
              (says alice "hello") (js "hello") staleContext Hb Hload)
    as (kept & Hkept & _ & _ & (body & Hstart & _) & _).
  exists kept. split; [exact Hkept|]. exists body. exact Hstart.
Defined.

(** ** Failures of the endpoint and of the stores *)




(** C5 (as amended).  When the body of a successful response has a
    reply text, nothing that happens in the usage ledger changes what
    [chat] returns: if the conversation record can be written, [chat]
    returns the reply text and the record holds the context with the
    reply appended, whether the merge succeeded or was logged as
    failed.  If writing the conversation record throws, [chat] logs the
    error, leaves the records as they were and returns the empty
    string, so the dispatcher sends the fallback message and not the
    reply. *)
Theorem reply_survives_only_ledger_failure (env : Env) (st : State)
    (run : InFlight) (status : Z) (u : option Usage) (text : jsstring) :
  let session := f_session run in
  let uid := userId session in
  let body := {| usage := u; choices_0_message_content := Some text |} in
  let r := chat_settle env (files st) (database st) session (f_context run)
             (FetchResponse true status (Some body)) in
  let st' := middleware_resume env st run
               (FetchResponse true status (Some body)) in
  s_database r = fst (updateTokenUsage env (database st) session u) /\
  (fs_write_ok env = true ->
   s_text r = text /\
   s_files r = <[uid := Parsable (f_context run ++ [assistantMessage text])]>
                 (files st) /\
   s_errors r = usageErrors (snd (updateTokenUsage env (database st) session u)) /\
   (text <> [] -> sent st' = sent st ++ [(uid, text)])) /\
  (fs_write_ok env = false ->
   s_text r = [] /\ s_files r = files st /\
   ChatError uid ∈ s_errors r /\
   sent st' = sent st ++ [(uid, fallbackMessage)]).
Proof.
  intros session uid body r st'. subst r st' body.
  unfold middleware_resume. fold session. rewrite chat_settle_reply. cbn zeta.
  split; [by destruct (fs_write_ok env)|]. split.
  - intros ->. cbn [s_text s_files s_errors sent]. do 3 (split; [done|]).
    intros Hne. unfold jseqb. by rewrite bool_decide_eq_false_2.
  - intros ->. cbn [s_text s_files s_errors sent]. do 2 (split; [done|]).
    split; [left | done].
Qed.

Lemma reply_survives_only_ledger_failure_witness :
  let st := run sampleConfig (initial ∅ ∅)
              [Inbound dbDownEnv (says alice "hello")] in
  let st' := middleware_resume dbDownEnv st
               {| f_session := says alice "hello"; f_context := [];
                  f_body := {| req_model := []; req_messages := [];
                               req_max_tokens := 0 |} |}
               (replyBody "hi!") in
  fs_write_ok dbDownEnv = true /\
  js "hi!" <> [] /\
  sent st' = sent st ++ [(alice, js "hi!")].
Proof.
  intros st st'. split; [reflexivity|]. split; [discriminate|].
  destruct (reply_survives_only_ledger_failure dbDownEnv st
              {| f_session := says alice "hello"; f_context := [];
                 f_body := {| req_model := []; req_messages := [];
                              req_max_tokens := 0 |} |}
              200 (Some sampleUsage) (js "hi!"))
    as (_ & Hok & _).
  destruct (Hok eq_refl) as (_ & _ & _ & Hsent).
  apply Hsent. discriminate.
Defined.

(** C5 as stated fails: the reply text was parsed, the write of the
    conversation record throws, and the user gets the fallback message
    in place of the reply. *)
Lemma save_failure_replaces_reply :
  let st := run sampleConfig (initial ∅ ∅)
              [Inbound calmEnv (says alice "hello");
               Completion diskFullEnv alice (replyBody "hi!")] in
  sent st = [(alice, fallbackMessage)] /\
  sent st <> [(alice, js "hi!")] /\
  files st !! alice = None /\
  errorLog st = [ChatError alice].
Proof. vm_compute. repeat split; try reflexivity. discriminate. Qed.

(** C6, at the failing input.  The record of the user exists and does
    not parse.  [loadContext] throws; [chat] calls it before its [try]
    block, so [chat] throws as well and the exception reaches the
    middleware, which has set the flag and now neither clears it nor
    sends anything: no request is issued, and the next message of that
    user gets the busy reply.  The read failure is not taken as "no
    prior context", and it does not stay inside the orchestrator. *)
Example unparsable_record_throws :
  let st := run sampleConfig (initial corruptFiles ∅)
              [Inbound calmEnv (says alice "hello")] in
  corruptFiles !! alice = Some Unparsable /\
  loadContext calmEnv corruptFiles alice = Threw /\
  loadContext calmEnv corruptFiles alice <> Ok [] /\
  middleware_receive sampleConfig calmEnv (initial corruptFiles ∅)
    (says alice "hello")
  = (setActiveChats (initial corruptFiles ∅) {[ alice := true ]},
     CalledChat (js "hello") ChatThrew) /\
  sent st = [] /\ inFlight st = [] /\ errorLog st = [] /\
  isActive st alice = true /\
  middleware_receive sampleConfig calmEnv st (says alice "again")
  = (send st alice busyMessage, RejectedBusy).
Proof. vm_compute. repeat split; try reflexivity. discriminate. Qed.

(** Without a record the conversation is empty and the turn goes on:
    absence is not an error. *)
Lemma loadContext_absent (env : Env) (files : gmap jsstring FileRecord)
    (uid : jsstring) :
  files !! uid = None -> loadContext env files uid = Ok [].
Proof. unfold loadContext. by intros ->. Qed.

(** ** Usage ledger *)

Section Ledger.







(** The row a merge writes. *)
Lemma upsert_newUsage_lookup (db : gmap jsstring AIChatTokenUsage)
    (uid name : jsstring) (e : ExistingUsage) (u : Usage) :
  upsert db (newUsage uid name e u) !! uid
  = Some {| id := uid; userName := name;
            completionTokens := jsAdd (e_completionTokens e) (completion_tokens u);
            promptTokens := jsAdd (e_promptTokens e) (prompt_tokens u);
            totalTokens := jsAdd (e_totalTokens e) (total_tokens u);
            remark := default [] (remark <$> db !! uid) |}.
Proof. unfold upsert. cbn. apply lookup_insert_eq. Qed.



Lemma upsert_lookup_ne (db : gmap jsstring AIChatTokenUsage) (w : RowUpdate)
    (other : jsstring) :
  other <> u_id w -> upsert db w !! other = db !! other.
Proof. intros Hne. unfold upsert. by rewrite lookup_insert_ne. Qed.


(** A merge either leaves the table as it was (after an error, logged)
    or upserts [newUsage]. *)
Lemma updateTokenUsage_cases (env : Env) (db : gmap jsstring AIChatTokenUsage)
    (session : Session) (usage : option Usage) :
  updateTokenUsage env db session usage = (db, true) \/
  exists name u,
    usage = Some u /\
    updateTokenUsage env db session usage
    = (upsert db (newUsage (userId session) name
                    (existingUsage db (userId session)) u), false).
Proof.
  unfold updateTokenUsage, updateTokenUsage_try.
  destruct (db_get_ok env); [|by left].
  destruct (resolveUserName _ _ _) as [name|]; [|by left].
  destruct usage as [u|]; [|by left].
  destruct (db_upsert_ok env); [|by left].
  right. by exists name, u.
Qed.



(** A run of the function whose halves are not interleaved with another
    run is the function. *)
Lemma updateTokenUsage_halves (env : Env) (db : gmap jsstring AIChatTokenUsage)
    (session : Session) (usage : option Usage) :
  updateTokenUsage env db session usage
  = match updateTokenUsage_read env db session with
    | Ok existing => updateTokenUsage_write env db session usage existing
    | Threw => (db, true)
    end.
Proof.
  unfold updateTokenUsage, updateTokenUsage_try, updateTokenUsage_read,
    updateTokenUsage_write.
  destruct (db_get_ok env); [|done].
  destruct (resolveUserName _ _ _); [|done].
  destruct usage; [|done]. by destruct (db_upsert_ok env).
Qed.




Lemma leCounters_trans (c1 c2 c3 : Z * Z * Z) :
  leCounters c1 c2 -> leCounters c2 c3 -> leCounters c1 c3.
Proof.
  destruct c1 as [[a1 b1] d1], c2 as [[a2 b2] d2], c3 as [[a3 b3] d3].
  unfold leCounters. lia.
Qed.





End Ledger.




(** Two limits of the amended statement.  When two merges of one user
    overlap, the one that writes last wins: here the second merge has
    written 100 tokens when the first, which had read the row before,
    writes its 5, and the stored counters go down. *)
Lemma overlapping_merges_lose_update :
  let first := {| completion_tokens := 5; prompt_tokens := 5;
                  total_tokens := 5 |} in
  let second := {| completion_tokens := 100; prompt_tokens := 100;
                   total_tokens := 100 |} in
  exists read,
    updateTokenUsage_read calmEnv ∅ (says alice "one") = Ok read /\
    let db1 := fst (updateTokenUsage calmEnv ∅ (says alice "two")
                      (Some second)) in
    let db2 := fst (updateTokenUsage_write calmEnv db1 (says alice "one")
                      (Some first) read) in
    counters db1 alice = (100, 100, 100) /\
    counters db2 alice = (5, 5, 5).
Proof. eexists. split; [reflexivity|]. vm_compute. split; reflexivity. Qed.

(** Beyond 2^53 the sum of the code is not the integer sum: a counter
    that stands at 2^53 is not moved by a delta of one. *)
Lemma merge_beyond_exact_range_rounds :
  jsAddUsage (maxSafe, maxSafe, maxSafe)
    {| completion_tokens := 1; prompt_tokens := 1; total_tokens := 3 |}
  = (maxSafe, maxSafe, maxSafe + 4).
Proof. vm_compute. reflexivity. Qed.

(** C10.  The object a merge hands to [upsert] has the key, the name
    and the three counters, and no [remark].  A merge therefore either
    leaves the table as it was or upserts these five columns; in both
    cases every row that existed keeps its remark, and a row that the
    merge creates has the empty default. *)
Theorem merge_leaves_remark (env : Env) (db : gmap jsstring AIChatTokenUsage)
    (session : Session) (usage : option Usage) :
  let uid := userId session in
  let db' := fst (updateTokenUsage env db session usage) in
  (forall name existing u,
     let w := newUsage uid name existing u in
     u_id w = uid /\ u_userName w = Some name /\
     is_Some (u_completionTokens w) /\ is_Some (u_promptTokens w) /\
     is_Some (u_totalTokens w) /\ u_remark w = None) /\
  (db' = db \/
   exists name u,
     usage = Some u /\
     db' = upsert db (newUsage uid name (existingUsage db uid) u)) /\
  (forall k row, db !! k = Some row ->
     exists row', db' !! k = Some row' /\ remark row' = remark row) /\
  (forall k row', db !! k = None -> db' !! k = Some row' -> remark row' = []).
Proof.
  intros uid db'. subst uid db'.
  split; [intros name existing u; cbn; eauto 10|].
  destruct (updateTokenUsage_cases env db session usage)
    as [-> | (name & u & -> & ->)]; cbn [fst].
  - split; [by left|]. split; [by eauto|]. by intros k row' ->.
  - split; [right; by exists name, u|]. split.
    + intros k row Hrow.
      destruct (decide (k = userId session)) as [-> | Hne].
      * rewrite upsert_newUsage_lookup, Hrow. by eexists.
      * rewrite upsert_lookup_ne by done. by exists row.
    + intros k row' Hnone.
      destruct (decide (k = userId session)) as [-> | Hne].
      * rewrite upsert_newUsage_lookup, Hnone. by intros [= <-].
      * rewrite upsert_lookup_ne by done. congruence.
Qed.

Lemma merge_leaves_remark_witness :
  remarkedTable !! alice
  = Some {| id := alice; userName := js "Alice"; completionTokens := 1;
            promptTokens := 2; totalTokens := 3; remark := js "vip" |} /\
  exists row',
    fst (updateTokenUsage calmEnv remarkedTable (says alice "hello")
           (Some sampleUsage)) !! alice = Some row' /\
    remark row' = js "vip".
Proof.
  assert (Hrow : remarkedTable !! alice
                 = Some {| id := alice; userName := js "Alice";
                           completionTokens := 1; promptTokens := 2;
                           totalTokens := 3; remark := js "vip" |})
    by (vm_compute; reflexivity).
  split; [exact Hrow|].
  destruct (merge_leaves_remark calmEnv remarkedTable (says alice "hello")
              (Some sampleUsage)) as (_ & _ & Hkeep & _).
  destruct (Hkeep alice _ Hrow) as (row' & Hrow' & Hremark).
  exists row'. split; [exact Hrow' | exact Hremark].
Defined.

(** * Further properties of the code *)

(** ** Truncation, continued *)

Section TruncationMore.

Lemma truncate_within_budget (c : list Message) (b : Z) :
  contentLength c <= b -> truncateContextIfNeeded c b = Some c.
Proof.
  intros Hfit. unfold truncateContextIfNeeded. simpl.
  destruct (Z.gtb_spec (contentLength c) b); [lia | done].
Qed.

Lemma truncate_result (c r : list Message) (b : Z) :
  truncateContextIfNeeded c b = Some r ->
  r `suffix_of` c /\ contentLength r <= b /\
  (forall r', r' `suffix_of` c -> (length r < length r')%nat ->
              b < contentLength r').
Proof. apply truncate_loop_Some. Qed.

End TruncationMore.

(** X1.  A conversation that is within the budget comes back unchanged,
    and truncating twice is the same as truncating once. *)
Theorem truncate_idempotent (c : list Message) (b : Z) :
  (contentLength c <= b -> truncateContextIfNeeded c b = Some c) /\
  (forall r, truncateContextIfNeeded c b = Some r ->
             truncateContextIfNeeded r b = Some r).
Proof.
  split; [apply truncate_within_budget|].
  intros r Hr. apply truncate_within_budget.
  by apply truncate_result in Hr as (_ & ? & _).
Qed.

Lemma truncate_idempotent_witness :
  contentLength staleContext <= 3000 /\
  truncateContextIfNeeded staleContext 3000 = Some staleContext.
Proof.
  assert (H : contentLength staleContext <= 3000) by (vm_compute; discriminate).
  split; [exact H|].
  destruct (truncate_idempotent staleContext 3000) as [Hid _]. by apply Hid.
Defined.

(** X2.  A larger budget keeps at least what a smaller one keeps: the
    result for the smaller budget is a suffix of the result for the
    larger one. *)
Theorem truncate_monotone_in_budget (c r r' : list Message) (b b' : Z) :
  b <= b' ->
  truncateContextIfNeeded c b = Some r ->
  truncateContextIfNeeded c b' = Some r' ->
  r `suffix_of` r'.
Proof.
  intros Hle Hr Hr'.
  apply truncate_result in Hr as (Hsuf & Hfit & _).
  apply truncate_result in Hr' as (Hsuf' & _ & Hmax').
  destruct (suffix_weak_total r r' c Hsuf Hsuf') as [?|Hrev]; [done|].
  destruct (decide (length r' < length r)%nat) as [Hlt|Hge].
  - specialize (Hmax' r Hsuf Hlt). lia.
  - destruct Hrev as [k ->]. rewrite length_app in Hge.
    destruct k as [|x k]; [done | simpl in Hge; lia].
Qed.

Lemma truncate_monotone_in_budget_witness :
  3 <= 5 /\
  truncateContextIfNeeded
    [userMessage (js "hello"); assistantMessage (js "hi")] 3
  = Some [assistantMessage (js "hi")] /\
  truncateContextIfNeeded
    [userMessage (js "hello"); assistantMessage (js "hi")] 5
  = Some [assistantMessage (js "hi")] /\
  [assistantMessage (js "hi")] `suffix_of` [assistantMessage (js "hi")].
Proof.
  split; [lia|]. split; [reflexivity|]. split; [reflexivity|].
  apply (truncate_monotone_in_budget
           [userMessage (js "hello"); assistantMessage (js "hi")] _ _ 3 5);
    [lia | reflexivity | reflexivity].
Defined.

(** ** Normalisation, continued *)

Section NormalisationMore.

Lemma trimStart_id (s : jsstring) :
  (forall c, head s = Some c -> ~ whiteSpace c) -> trimStart s = s.
Proof.
  destruct s as [|c s]; [done|]. intros H. simpl.
  destruct (isWhiteSpace c) eqn:Hc; [|done]. by destruct (H c eq_refl).
Qed.

Lemma trimStart_all (s : jsstring) :
  Forall whiteSpace s -> trimStart s = [].
Proof. induction 1 as [|c s Hc _ IH]; [done|]. simpl. by rewrite Hc. Qed.

Lemma trim_id (s : jsstring) :
  (forall c, head s = Some c -> ~ whiteSpace c) ->
  (forall c, last s = Some c -> ~ whiteSpace c) ->
  trim s = s.
Proof.
  intros Hhd Hlast. unfold trim. rewrite (trimStart_id s Hhd).
  rewrite trimStart_id; [apply rev_involutive|].
  intros c Hc. apply Hlast. by rewrite <- (rev_involutive s), last_rev_head.
Qed.

Lemma matchTag_noTag (c : code_unit) (r : jsstring) :
  (c = LT -> GT ∉ r) -> matchTag (c :: r) = None.
Proof.
  intros H. simpl. destruct (N.eqb_spec c LT) as [->|]; [|done].
  by apply matchTagTail_None, H.
Qed.

Lemma removeTags_plain (pre s : jsstring) :
  LT ∉ pre -> removeTags (pre ++ s) = pre ++ removeTags s.
Proof.
  induction pre as [|c pre IH]; [done|].
  intros [Hc Hpre]%not_elem_of_cons. simpl.
  rewrite removeTags_cons, matchTag_noTag; [by rewrite IH | congruence].
Qed.

End NormalisationMore.

(** X3.  [trim] does nothing to a text that neither starts nor ends with
    white space, so trimming twice is trimming once; and a text is
    trimmed to the empty string exactly when it consists of white space
    only. *)
Theorem trim_idempotent (s : jsstring) :
  trim (trim s) = trim s /\
  (trim s = [] <-> Forall whiteSpace s).
Proof.
  destruct (trim_spec s) as (pre & post & Hs & Hpre & Hpost & Hhd & Hlast).
  split; [by apply trim_id|]. split.
  - intros Hnil. rewrite Hs, Hnil. simpl. by apply Forall_app.
  - intros Hall. unfold trim. by rewrite (trimStart_all s Hall).
Qed.

(** X4.  [removeTags] leaves a text alone exactly when the text has no
    [<] that is followed by a [>]; in particular a text without [>], or
    without [<], is unchanged, and removing tags twice is removing them
    once. *)
Theorem removeTags_fixpoint (s : jsstring) :
  (removeTags s = s <-> noTag s) /\
  (GT ∉ s -> removeTags s = s) /\
  (LT ∉ s -> removeTags s = s) /\
  removeTags (removeTags s) = removeTags s.
Proof.
  assert (Hfix : forall t, noTag t -> removeTags t = t).
  { induction t as [|c r IH]; [done|]. intros [Hc Hr].
    rewrite removeTags_cons, matchTag_noTag by done. by rewrite IH. }
  split; [split; [intros <-; apply removeTags_noTag | apply Hfix]|].
  split.
  { intros Hgt. apply Hfix. induction s as [|c r IH]; [done|].
    apply not_elem_of_cons in Hgt as [_ Hr]. split; [done | by apply IH]. }
  split.
  { intros Hlt. rewrite <- (app_nil_r s) at 1.
    rewrite removeTags_plain by done. by rewrite removeTags_nil, app_nil_r. }
  apply Hfix, removeTags_noTag.
Qed.

Lemma removeTags_fixpoint_witness :
  (GT ∉ js "a < b") /\ removeTags (js "a < b") = js "a < b".
Proof.
  assert (H : GT ∉ js "a < b").
  { intros Hin. apply list_elem_of_In in Hin. vm_compute in Hin.
    repeat (destruct Hin as [Hin|Hin]; [discriminate|]). exact Hin. }
  split; [exact H|].
  destruct (removeTags_fixpoint (js "a < b")) as (_ & Hgt & _). by apply Hgt.
Defined.

(** X5.  The text in front of the first [<] is kept as it is, and a tag
    ([<], code units other than [>], [>]) is dropped whole: the scan
    goes on right after its [>]. *)
Theorem removeTags_drops_tag (pre body rest : jsstring) :
  LT ∉ pre -> GT ∉ body ->
  removeTags (pre ++ LT :: body ++ GT :: rest) = pre ++ removeTags rest.
Proof.
  intros Hpre Hbody. rewrite removeTags_plain by done. f_equal.
  rewrite removeTags_cons.
  assert (Hm : matchTag (LT :: body ++ GT :: rest) = Some rest).
  { apply matchTag_Some. by exists body. }
  by rewrite Hm.
Qed.

Lemma removeTags_drops_tag_witness :
  (LT ∉ js "see ") /\ (GT ∉ js "img src=x") /\
  removeTags (js "see <img src=x> this") = js "see  this".
Proof.
  assert (H1 : LT ∉ js "see ").
  { intros Hin. apply list_elem_of_In in Hin. vm_compute in Hin.
    repeat (destruct Hin as [Hin|Hin]; [discriminate|]). exact Hin. }
  assert (H2 : GT ∉ js "img src=x").
  { intros Hin. apply list_elem_of_In in Hin. vm_compute in Hin.
    repeat (destruct Hin as [Hin|Hin]; [discriminate|]). exact Hin. }
  split; [exact H1|]. split; [exact H2|].
  pose proof (removeTags_drops_tag (js "see ") (js "img src=x") (js " this")
                H1 H2) as H.
  vm_compute in H |- *. exact H.
Defined.

(** ** Context store *)

(** X6.  The command [reset] sends its reply and leaves the flags, the
    suspended runs and the usage table as they are.  Without a record
    of the sender it does nothing more; when the record is removed, the
    next [loadContext] of that user gives the empty conversation; when
    removing it throws, the record stays and the error is logged. *)
Theorem reset_then_load_empty (env env' : Env) (st : State)
    (session : Session) :
  let uid := userId session in
  let st' := command_reset env st session in
  activeChats st' = activeChats st /\
  inFlight st' = inFlight st /\
  database st' = database st /\
  sent st' = sent st ++ [(uid, resetMessage)] /\
  (files st !! uid = None ->
   files st' = files st /\ errorLog st' = errorLog st) /\
  (fs_unlink_ok env = true ->
   files st' !! uid = None /\ loadContext env' (files st') uid = Ok [] /\
   errorLog st' = errorLog st) /\
  (is_Some (files st !! uid) -> fs_unlink_ok env = false ->
   files st' = files st /\ errorLog st' = errorLog st ++ [ResetError]).
Proof.
  intros uid st'. subst uid st'. unfold command_reset, resetContext, loadContext.
  destruct (files st !! userId session) as [record|] eqn:Hrec;
    destruct (fs_unlink_ok env); cbn [activeChats inFlight database sent files
                                       errorLog];
    rewrite ?app_nil_r; repeat split; try done.
  - apply lookup_delete_eq.
  - by rewrite lookup_delete_eq.
  - by rewrite Hrec.
Qed.

Lemma reset_then_load_empty_witness :
  fs_unlink_ok calmEnv = true /\
  loadContext calmEnv
    (files (command_reset calmEnv (initial staleFiles ∅) (says alice "reset")))
    alice = Ok [].
Proof.
  split; [reflexivity|].
  destruct (reset_then_load_empty calmEnv calmEnv (initial staleFiles ∅)
              (says alice "reset")) as (_ & _ & _ & _ & _ & Hok & _).
  destruct (Hok eq_refl) as (_ & Hload & _). exact Hload.
Defined.

(** ** Usage ledger, continued *)

(** X8.  A display name that is stored and not empty is never replaced:
    whatever the session says and whatever fails, the row of the user
    carries the same name after a merge. *)
Theorem merge_keeps_existing_name (env : Env)
    (db : gmap jsstring AIChatTokenUsage) (session : Session)
    (usage : option Usage) (row : AIChatTokenUsage) :
  db !! userId session = Some row ->
  userName row <> [] ->
  exists row',
    fst (updateTokenUsage env db session usage) !! userId session = Some row' /\
    userName row' = userName row.
Proof.
  intros Hrow Hname. unfold updateTokenUsage, updateTokenUsage_try.
  destruct (db_get_ok env); [|by exists row].
  assert (Hres : resolveUserName env session
                   (existingUsage db (userId session)) = Ok (userName row)).
  { unfold resolveUserName, existingUsage, jseqb. rewrite Hrow.
    cbn [e_userName]. by rewrite bool_decide_eq_false_2. }
  rewrite Hres. destruct usage as [u|]; [|by exists row].
  destruct (db_upsert_ok env); [|by exists row]. cbn [fst].
  rewrite upsert_newUsage_lookup. by eexists.
Qed.

Lemma merge_keeps_existing_name_witness :
  remarkedTable !! alice
  = Some {| id := alice; userName := js "Alice"; completionTokens := 1;
            promptTokens := 2; totalTokens := 3; remark := js "vip" |} /\
  js "Alice" <> [] /\
  exists row',
    fst (updateTokenUsage calmEnv remarkedTable
           {| userId := alice; username := js "Somebody else";
              platform := js "lark"; sessionContent := [] |}
           (Some sampleUsage)) !! alice = Some row' /\
    userName row' = js "Alice".
Proof.
  assert (Hrow : remarkedTable !! alice
                 = Some {| id := alice; userName := js "Alice";
                           completionTokens := 1; promptTokens := 2;
                           totalTokens := 3; remark := js "vip" |})
    by (vm_compute; reflexivity).
  split; [exact Hrow|]. split; [discriminate|].
  apply (merge_keeps_existing_name calmEnv remarkedTable
           {| userId := alice; username := js "Somebody else";
              platform := js "lark"; sessionContent := [] |}
           (Some sampleUsage) _ Hrow).
  discriminate.
Defined.

(** X9.  When no name is stored, the session's name is the identifier
    itself, the platform is [lark] and the directory lookup throws, the
    merge is abandoned as a whole: the error is logged and the table,
    counters included, is as before, although the usage and the database
    were fine. *)
Theorem lookup_failure_abandons_merge (env : Env)
    (db : gmap jsstring AIChatTokenUsage) (session : Session)
    (usage : option Usage) :
  e_userName (existingUsage db (userId session)) = [] ->
  username session = userId session ->
  platform session = platform_lark ->
  lark_user env = None ->
  updateTokenUsage env db session usage = (db, true).
Proof.
  intros Hname Huser Hplat Hlark. unfold updateTokenUsage, updateTokenUsage_try.
  destruct (db_get_ok env); [|done].
  unfold resolveUserName, jseqb. rewrite Hname, Huser, Hplat, Hlark.
  rewrite !bool_decide_eq_true_2 by done. done.
Qed.

Lemma lookup_failure_abandons_merge_witness :
  updateTokenUsage dbDownEnv ∅
    {| userId := alice; username := alice; platform := platform_lark;
       sessionContent := [] |} (Some sampleUsage)
  = (∅, true).
Proof.
  apply lookup_failure_abandons_merge; reflexivity.
Defined.

(** X10.  When the merge goes through for a user without a stored name,
    the name written is the session's name if that differs from the
    identifier; otherwise, on [lark], the directory's name followed by
    the nickname in parentheses; otherwise the empty name stays. *)
Theorem merge_resolves_name (env : Env) (db : gmap jsstring AIChatTokenUsage)
    (session : Session) (u : Usage) (db' : gmap jsstring AIChatTokenUsage) :
  e_userName (existingUsage db (userId session)) = [] ->
  updateTokenUsage env db session (Some u) = (db', false) ->
  exists row',
    db' !! userId session = Some row' /\
    (username session <> userId session -> userName row' = username session) /\
    (username session = userId session -> platform session = platform_lark ->
     exists nm nick, lark_user env = Some (nm, nick) /\
                     userName row' = nm ++ js "(" ++ nick ++ js ")") /\
    (username session = userId session -> platform session <> platform_lark ->
     userName row' = []).
Proof.
  intros Hname. unfold updateTokenUsage, updateTokenUsage_try.
  destruct (db_get_ok env); [|discriminate].
  destruct (resolveUserName _ _ _) as [nm|] eqn:Hres; [|discriminate].
  destruct (db_upsert_ok env); [|discriminate]. intros [= <-].
  rewrite upsert_newUsage_lookup. eexists. split; [done|]. cbn [userName].
  revert Hres. unfold resolveUserName, jseqb. rewrite Hname.
  rewrite (bool_decide_eq_true_2 _ eq_refl).
  case_bool_decide as Hu; cbn [negb].
  - case_bool_decide as Hp.
    + destruct (lark_user env) as [[n k]|]; [|discriminate]. intros [= <-].
      split; [done|]. split; [by exists n, k | done].
    + intros [= <-]. done.
  - intros [= <-]. done.
Qed.

Lemma merge_resolves_name_witness :
  exists row',
    fst (updateTokenUsage calmEnv ∅ (says alice "hello") (Some sampleUsage))
      !! alice = Some row' /\
    userName row' = js "Alice".
Proof.
  destruct (merge_resolves_name calmEnv ∅ (says alice "hello") sampleUsage
              (fst (updateTokenUsage calmEnv ∅ (says alice "hello")
                      (Some sampleUsage))))
    as (row' & Hrow' & Hname & _); [reflexivity | reflexivity |].
  exists row'. split; [exact Hrow'|]. apply Hname. discriminate.
Defined.

(** ** Command names *)

(** X11.  [commandName] puts ["ai-chat."] in front of the command, so
    different commands get different names. *)
Theorem commandName_injective (a b : jsstring) :
  commandName a = js "ai-chat." ++ a /\
  (commandName a = commandName b -> a = b).
Proof.
  split; [done|]. unfold commandName. intros H.
  by apply app_inv_head in H; apply app_inv_head in H.
Qed.

(** ** Whole turns *)

Section Turns.

Lemma takeInFlight_snoc (uid : jsstring) (l : list InFlight) (r : InFlight) :
  uid ∉ map (fun r => userId (f_session r)) l ->
  userId (f_session r) = uid ->
  takeInFlight uid (l ++ [r]) = Some (r, l).
Proof.
  intros Hfresh Hr. induction l as [|x l IH]; simpl.
  - unfold jseqb. by rewrite bool_decide_eq_true_2.
  - simpl in Hfresh. apply not_elem_of_cons in Hfresh as [Hx Hl].
    unfold jseqb. rewrite bool_decide_eq_false_2 by congruence.
    by rewrite (IH Hl).
Qed.

Lemma middleware_receive_awaits (config : Config) (env : Env) (st : State)
    (session : Session) (context : list Message) (body : Request) :
  bots env (userId session) = false ->
  isActive st (userId session) = false ->
  normalize (sessionContent session) <> [] ->
  chat_start config env (files st) session (normalize (sessionContent session))
  = ChatAwaitsFetch context body ->
  fst (middleware_receive config env st session)
  = setInFlight (setActiveChats st (<[userId session := true]> (activeChats st)))
      (inFlight st ++ [ {| f_session := session; f_context := context;
                           f_body := body |} ]).
Proof.
  intros Hbot Hflag Hne Hstart. unfold middleware_receive.
  rewrite Hbot, Hflag. unfold jseqb. rewrite bool_decide_eq_false_2 by done.
  cbn [files setActiveChats]. by rewrite Hstart.
Qed.

Lemma chat_settle_files_cases (env : Env) (files : gmap jsstring FileRecord)
    (db : gmap jsstring AIChatTokenUsage) (session : Session)
    (context : list Message) (outcome : FetchOutcome) :
  s_files (chat_settle env files db session context outcome) = files \/
  exists text,
    s_files (chat_settle env files db session context outcome)
    = <[userId session := Parsable (context ++ [assistantMessage text])]> files.
Proof.
  destruct outcome as [|[|] status [[u [text|]]|]]; try by left.
  - rewrite chat_settle_reply. cbn zeta.
    destruct (fs_write_ok env); [right; by exists text | by left].
  - rewrite chat_settle_no_choices. by left.
Qed.

Lemma chat_settle_database_cases (env : Env) (files : gmap jsstring FileRecord)
    (db : gmap jsstring AIChatTokenUsage) (session : Session)
    (context : list Message) (outcome : FetchOutcome) :
  s_database (chat_settle env files db session context outcome) = db \/
  exists status body u,
    outcome = FetchResponse true status (Some body) /\ usage body = Some u /\
    s_database (chat_settle env files db session context outcome)
    = fst (updateTokenUsage env db session (Some u)).
Proof.
  destruct outcome as [|[|] status [[[u|] [text|]]|]]; try by left.
  - right. exists status, {| usage := Some u;
                             choices_0_message_content := Some text |}, u.
    rewrite chat_settle_reply. cbn zeta. by destruct (fs_write_ok env).
  - right. exists status, {| usage := Some u;
                             choices_0_message_content := None |}, u.
    by rewrite chat_settle_no_choices.
  - left. rewrite chat_settle_reply, updateTokenUsage_no_usage. cbn zeta.
    by destruct (fs_write_ok env).
  - left. by rewrite chat_settle_no_choices, updateTokenUsage_no_usage.
Qed.

End Turns.

(** X12.  A whole successful turn.  A message of a user who is not a
    bot, has no flag set and no run in flight, whose normalised text is
    not empty and whose record loads, followed by a 2xx answer with a
    reply text that is not empty and a conversation record that can be
    written: the record of the user becomes the current system message,
    the messages the truncation kept and the reply; the reply is what is
    sent; the usage table is what the ledger makes of the reported
    usage; the flag is clear again and the run is gone. *)
Theorem successful_turn (config : Config) (env env' : Env) (st : State)
    (session : Session) (loaded : list Message) (status : Z)
    (u : option Usage) (text : jsstring) :
  let uid := userId session in
  let input := normalize (sessionContent session) in
  bots env uid = false ->
  isActive st uid = false ->
  uid ∉ inFlightUsers st ->
  input <> [] ->
  loadContext env (files st) uid = Ok loaded ->
  0 <= maxTokens config ->
  fs_write_ok env' = true ->
  text <> [] ->
  let st2 := run config st [Inbound env session;
                            Completion env' uid (replyWith status u text)] in
  exists kept,
    truncateContextIfNeeded (dropSystemPrompt loaded ++ [userMessage input])
      (maxTokens config) = Some kept /\
    files st2
    = <[uid := Parsable (systemMessage config ++ kept ++
                         [assistantMessage text])]> (files st) /\
    database st2 = fst (updateTokenUsage env' (database st) session u) /\
    sent st2 = sent st ++ [(uid, text)] /\
    isActive st2 uid = false /\
    inFlight st2 = inFlight st.
Proof.
  intros uid input Hbot Hflag Hfresh Hne Hload Hb Hw Htext st2.
  destruct (truncate_longest_suffix_budget_aux
              (dropSystemPrompt loaded ++ [userMessage input])
              (maxTokens config) Hb) as (kept & Hkept & _).
  destruct (chat_start_awaits config env (files st) session input loaded kept
              Hload Hkept) as (body & Hstart & _).
  exists kept. split; [exact Hkept|].
  subst st2. unfold run. cbn [fold_left step].
  rewrite (middleware_receive_awaits _ _ _ _ _ _ Hbot Hflag Hne Hstart).
  cbn [inFlight setInFlight].
  rewrite (takeInFlight_snoc uid (inFlight st)) by done.
  unfold middleware_resume, replyWith. cbn [f_session f_context].
  rewrite chat_settle_reply. cbn zeta. rewrite Hw.
  cbn [files database sent inFlight activeChats setInFlight setActiveChats
       s_files s_database s_text].
  fold uid. split; [by rewrite <- app_assoc|]. split; [done|].
  split; [unfold jseqb; by rewrite bool_decide_eq_false_2|].
  split; [|done]. unfold isActive. cbn [activeChats].
  by rewrite lookup_delete_eq.
Qed.

Lemma successful_turn_witness :
  let st2 := run sampleConfig (initial staleFiles ∅)
               [Inbound calmEnv (says alice " <b>hello</b> ");
                Completion calmEnv alice (replyWith 200 (Some sampleUsage)
                                            (js "hi!"))] in
  files st2 !! alice
  = Some (Parsable [ {| role := role_system; content := js "S" ++ [10; 10]%N |};
                     userMessage (js "a"); assistantMessage (js "b");
                     userMessage (js "hello"); assistantMessage (js "hi!") ]) /\
  sent st2 = [(alice, js "hi!")] /\
  isActive st2 alice = false.
Proof.
  intros st2.
  destruct (successful_turn sampleConfig calmEnv calmEnv (initial staleFiles ∅)
              (says alice " <b>hello</b> ") staleContext 200
              (Some sampleUsage) (js "hi!"))
    as (kept & Hkept & Hfiles & _ & Hsent & Hflag & _);
    try reflexivity; try discriminate.
  { apply not_elem_of_nil. }
  vm_compute in Hkept. injection Hkept as <-.
  subst st2. cbn [userId says] in Hfiles, Hsent, Hflag |- *.
  split; [|split; [exact Hsent | exact Hflag]].
  rewrite Hfiles. vm_compute. reflexivity.
Defined.

(** X13.  A [reset] that arrives while the user's turn is in flight
    does not last: the run was started from the conversation loaded
    before the reset, and when it completes with a reply it writes that
    conversation, with the reply, back into the record. *)
Theorem reset_in_flight_is_overwritten (config : Config) (env env' : Env)
    (st : State) (session : Session) (r : InFlight) (rest : list InFlight)
    (status : Z) (u : option Usage) (text : jsstring) :
  let uid := userId session in
  takeInFlight uid (inFlight st) = Some (r, rest) ->
  fs_write_ok env' = true ->
  let st1 := step config st (ResetCommand env session) in
  let st2 := step config st1 (Completion env' uid (replyWith status u text)) in
  (fs_unlink_ok env = true -> files st1 !! uid = None) /\
  files st2 !! uid = Some (Parsable (f_context r ++ [assistantMessage text])).
Proof.
  intros uid Htake Hw st1 st2. subst st1 st2. cbn [step].
  assert (Hin : inFlight (command_reset env st session) = inFlight st).
  { unfold command_reset. by destruct (resetContext _ _ _). }
  split.
  { intros Hun. unfold command_reset, resetContext. fold uid.
    destruct (files st !! uid) eqn:Hrec; rewrite ?Hun; cbn [files]; [|done].
    apply lookup_delete_eq. }
  rewrite Hin, Htake. unfold middleware_resume, replyWith.
  rewrite chat_settle_reply. cbn zeta. rewrite Hw. cbn [files s_files].
  apply takeInFlight_Some in Htake as [-> _]. apply lookup_insert_eq.
Qed.

Lemma reset_in_flight_is_overwritten_witness :
  let st := run sampleConfig (initial staleFiles ∅)
              [Inbound calmEnv (says alice "hello");
               ResetCommand calmEnv (says alice "reset")] in
  files st !! alice = None /\
  files (step sampleConfig st
           (Completion calmEnv alice (replyWith 200 None (js "hi!")))) !! alice
  = Some (Parsable [ {| role := role_system; content := js "S" ++ [10; 10]%N |};
                     userMessage (js "a"); assistantMessage (js "b");
                     userMessage (js "hello"); assistantMessage (js "hi!") ]).
Proof.
  set (st0 := run sampleConfig (initial staleFiles ∅)
                [Inbound calmEnv (says alice "hello")]).
  assert (Htake : exists r rest,
            takeInFlight (userId (says alice "reset")) (inFlight st0)
            = Some (r, rest) /\
            f_context r = [ {| role := role_system;
                               content := js "S" ++ [10; 10]%N |};
                            userMessage (js "a"); assistantMessage (js "b");
                            userMessage (js "hello") ]).
  { eexists _, _. split; vm_compute; reflexivity. }
  destruct Htake as (r & rest & Htake & Hctx).
  destruct (reset_in_flight_is_overwritten sampleConfig calmEnv calmEnv st0
              (says alice "reset") r rest 200 None (js "hi!") Htake eq_refl)
    as [Hgone Hback].
  split; [exact (Hgone eq_refl)|].
  rewrite Hctx in Hback. exact Hback.
Defined.

(** ** The shape of the conversations *)

Section Shape.

Lemma noSystem_oneSystem (c : list Message) : noSystem c -> oneSystem c.
Proof. apply Forall_tail. Qed.

Lemma dropSystemPrompt_noSystem (c : list Message) :
  oneSystem c -> noSystem (dropSystemPrompt c).
Proof.
  destruct c as [|m c]; [done|]. unfold oneSystem, dropSystemPrompt, jseqb.
  simpl. intros Hc. case_bool_decide as Hm; [done|]. by constructor.
Qed.

Lemma systemMessage_oneSystem (config : Config) (c : list Message) :
  noSystem c -> oneSystem (systemMessage config ++ c).
Proof.
  intros Hc. unfold systemMessage.
  destruct (truthy (systemPrompt config)); [done|]. by apply noSystem_oneSystem.
Qed.

Lemma oneSystem_reply (c : list Message) (text : jsstring) :
  oneSystem c -> oneSystem (c ++ [assistantMessage text]).
Proof.
  unfold oneSystem, noSystem. destruct c as [|m c]; simpl; [constructor|].
  intros Hc. apply Forall_app. split; [done|]. by repeat constructor.
Qed.

Lemma loadContext_oneSystem (env : Env) (files : gmap jsstring FileRecord)
    (uid : jsstring) (loaded : list Message) :
  (forall c, files !! uid = Some (Parsable c) -> oneSystem c) ->
  loadContext env files uid = Ok loaded -> oneSystem loaded.
Proof.
  intros Hinv. unfold loadContext.
  destruct (files !! uid) as [[c|]|]; [| |intros [= <-]; constructor];
    destruct (fs_read_ok env); try done.
  intros [= <-]. by apply Hinv.
Qed.

Lemma chat_start_oneSystem (config : Config) (env : Env)
    (files : gmap jsstring FileRecord) (session : Session)
    (content : jsstring) (context : list Message) (body : Request) :
  (forall c, files !! userId session = Some (Parsable c) -> oneSystem c) ->
  chat_start config env files session content = ChatAwaitsFetch context body ->
  oneSystem context /\ req_messages body = context.
Proof.
  intros Hinv. unfold chat_start.
  destruct (loadContext env files (userId session)) as [loaded|] eqn:Hload;
    [|done].
  destruct (truncateContextIfNeeded _ _) as [kept|] eqn:Hkept; [|done].
  intros [= <- <-]. split; [|done]. apply systemMessage_oneSystem.
  apply truncate_result in Hkept as ([k Hk] & _).
  assert (Hall : noSystem (dropSystemPrompt loaded ++
                           [ {| role := role_user; content := content |} ])).
  { apply Forall_app. split; [|by repeat constructor].
    apply dropSystemPrompt_noSystem. by eapply loadContext_oneSystem. }
  rewrite Hk in Hall. by apply Forall_app in Hall as [_ ?].
Qed.

Lemma storeInv_step (config : Config) (st : State) (ev : Event) :
  storeInv st -> storeInv (step config st ev).
Proof.
  intros [Hfiles Hruns].
  destruct ev as [env session|env uid outcome|env session|session]; cbn [step].
  - unfold middleware_receive.
    destruct (bots env (userId session)); [done|].
    destruct (isActive st (userId session)); [done|].
    destruct (jseqb _ _); [done|].
    destruct (chat_start _ _ _ _ _) as [| |context body] eqn:Hstart;
      [done | done |].
    split; [exact Hfiles|]. cbn [fst inFlight setInFlight setActiveChats].
    apply Forall_app. split; [exact Hruns|]. constructor; [|constructor].
    cbn [f_context f_body]. eapply chat_start_oneSystem; [|exact Hstart].
    intros c. apply Hfiles.
  - destruct (takeInFlight uid (inFlight st)) as [[r rest]|] eqn:Htake; [|done].
    apply takeInFlight_Some in Htake as (Hid & l1 & l2 & Hl & ->).
    rewrite Hl in Hruns. apply Forall_app in Hruns as [H1 H2].
    apply Forall_cons in H2 as [[Hr _] H2].
    split; [|by apply Forall_app].
    unfold middleware_resume. cbn [files setInFlight database].
    destruct (chat_settle_files_cases env (files st) (database st)
                (f_session r) (f_context r) outcome) as [-> | [text ->]];
      [exact Hfiles|].
    intros v c. rewrite lookup_insert. case_decide.
    + intros [= <-]. by apply oneSystem_reply.
    + apply Hfiles.
  - unfold command_reset, resetContext.
    destruct (files st !! userId session); [|done].
    destruct (fs_unlink_ok env); [|done].
    split; [|exact Hruns]. cbn [files]. intros v c.
    rewrite lookup_delete. case_decide; [done | apply Hfiles].
  - done.
Qed.

End Shape.

(** X14.  The conversations keep their shape.  If every conversation
    record that parses has no system message beyond index 0, the same
    holds after any sequence of events, for the records and for the
    message lists of the requests in flight: [chat] never writes or
    sends a second system message. *)
Theorem conversations_keep_one_system (config : Config) (st : State)
    (evs : list Event) :
  storeInv st ->
  let st' := run config st evs in
  (forall uid c, files st' !! uid = Some (Parsable c) -> oneSystem c) /\
  (forall r, r ∈ inFlight st' ->
     oneSystem (f_context r) /\ oneSystem (req_messages (f_body r))).
Proof.
  intros Hinv st'. subst st'. unfold run.
  assert (H : storeInv (fold_left (step config) evs st)).
  { revert st Hinv. induction evs as [|ev evs IH]; intros st Hinv; [done|].
    simpl. apply IH. by apply storeInv_step. }
  destruct H as [Hfiles Hruns]. split; [exact Hfiles|].
  intros r Hr. rewrite Forall_forall in Hruns.
  destruct (Hruns r Hr) as [Hc Hb]. split; [done | by rewrite Hb].
Qed.

Lemma conversations_keep_one_system_witness :
  storeInv (initial staleFiles ∅) /\
  forall uid c,
    files (run sampleConfig (initial staleFiles ∅)
             [Inbound calmEnv (says alice "hello");
              Completion calmEnv alice (replyBody "hi!")]) !! uid
    = Some (Parsable c) ->
    oneSystem c.
Proof.
  assert (Hinv : storeInv (initial staleFiles ∅)).
  { split; [|constructor]. intros uid c. cbn [files initial].
    unfold staleFiles. intros [_ [= <-]]%lookup_singleton_Some.
    repeat constructor; discriminate. }
  split; [exact Hinv|].
  apply (conversations_keep_one_system sampleConfig _
           [Inbound calmEnv (says alice "hello");
            Completion calmEnv alice (replyBody "hi!")] Hinv).
Defined.

(** ** Users do not interfere *)

Section Isolation.

Lemma takeInFlight_filter_other (uid v : jsstring) (l rest : list InFlight)
    (r : InFlight) :
  takeInFlight uid l = Some (r, rest) -> v <> uid ->
  filter (fun x => userId (f_session x) = v) rest
  = filter (fun x => userId (f_session x) = v) l.
Proof.
  intros Htake Hne.
  apply takeInFlight_Some in Htake as (Hid & l1 & l2 & -> & ->).
  rewrite !filter_app, filter_cons. by rewrite decide_False by congruence.
Qed.

Lemma updateTokenUsage_other (env : Env) (db : gmap jsstring AIChatTokenUsage)
    (session : Session) (usage : option Usage) (v : jsstring) :
  v <> userId session ->
  fst (updateTokenUsage env db session usage) !! v = db !! v.
Proof.
  intros Hne.
  destruct (updateTokenUsage_cases env db session usage)
    as [-> | (nm & u & _ & ->)]; [done|].
  cbn [fst]. by apply upsert_lookup_ne.
Qed.

Lemma chat_settle_database_other (env : Env)
    (files : gmap jsstring FileRecord) (db : gmap jsstring AIChatTokenUsage)
    (session : Session) (context : list Message) (outcome : FetchOutcome)
    (v : jsstring) :
  v <> userId session ->
  s_database (chat_settle env files db session context outcome) !! v = db !! v.
Proof.
  intros Hne.
  destruct (chat_settle_database_cases env files db session context outcome)
    as [-> | (status & body & u & _ & _ & ->)]; [done|].
  by apply updateTokenUsage_other.
Qed.

Lemma filter_sent_snoc (v uid text : jsstring)
    (l : list (jsstring * jsstring)) :
  v <> uid ->
  filter (fun m => fst m = v) (l ++ [(uid, text)]) = filter (fun m => fst m = v) l.
Proof.
  intros Hne. rewrite filter_app, filter_cons, filter_nil.
  rewrite decide_False by (simpl; congruence). apply app_nil_r.
Qed.

End Isolation.

(** X15.  An event about one user leaves, for every other user, the
    flag, the usage row, the suspended run and the messages sent to them
    as they were.  (The conversation records are left out: two
    identifiers can name one file.) *)
Theorem other_users_untouched (config : Config) (st : State) (ev : Event)
    (v : jsstring) :
  v <> eventUser ev ->
  let st' := step config st ev in
  activeChats st' !! v = activeChats st !! v /\
  database st' !! v = database st !! v /\
  filter (fun r => userId (f_session r) = v) (inFlight st')
  = filter (fun r => userId (f_session r) = v) (inFlight st) /\
  filter (fun m => fst m = v) (sent st')
  = filter (fun m => fst m = v) (sent st).
Proof.
  intros Hne st'. subst st'.
  destruct ev as [env session|env uid outcome|env session|session];
    cbn [step eventUser] in *.
  - unfold middleware_receive.
    destruct (bots env (userId session)); [done|].
    destruct (isActive st (userId session)).
    { cbn [fst send activeChats files database inFlight sent].
      by rewrite filter_sent_snoc. }
    assert (Hflag : <[userId session := true]> (activeChats st) !! v
                    = activeChats st !! v) by by rewrite lookup_insert_ne.
    destruct (jseqb _ _); [done|].
    destruct (chat_start _ _ _ _ _); [done | done |].
    cbn [fst setInFlight setActiveChats activeChats files database inFlight sent].
    repeat split; try done.
    rewrite filter_app, filter_cons, filter_nil.
    rewrite decide_False by (cbn [f_session]; congruence). apply app_nil_r.
  - destruct (takeInFlight uid (inFlight st)) as [[r rest]|] eqn:Htake; [|done].
    pose proof (takeInFlight_filter_other _ v _ _ _ Htake Hne) as Hrest.
    apply takeInFlight_Some in Htake as (Hid & _).
    unfold middleware_resume.
    cbn [setInFlight activeChats files database inFlight sent]. rewrite Hid.
    split; [by rewrite lookup_delete_ne|].
    split; [apply chat_settle_database_other; congruence|].
    split; [done|]. by apply filter_sent_snoc.
  - unfold command_reset, resetContext.
    destruct (files st !! userId session);
      [destruct (fs_unlink_ok env)|];
      cbn [activeChats files database inFlight sent];
      rewrite filter_sent_snoc by done; repeat split; done.
  - unfold command_help. cbn [send activeChats files database inFlight sent].
    by rewrite filter_sent_snoc.
Qed.

Lemma other_users_untouched_witness :
  bob <> alice /\
  let st := run sampleConfig (initial staleFiles remarkedTable)
              [Inbound calmEnv (says alice "hello")] in
  let st' := step sampleConfig st (Completion calmEnv bob (replyBody "hi!")) in
  activeChats st' !! alice = activeChats st !! alice /\
  database st' !! alice = database st !! alice.
Proof.
  split; [discriminate|]. intros st st'.
  destruct (other_users_untouched sampleConfig st
              (Completion calmEnv bob (replyBody "hi!")) alice)
    as (Hflag & Hdb & _); [discriminate|].
  split; [exact Hflag | exact Hdb].
Defined.

(** ** The flag and the runs in flight *)

Section GateExact.

Lemma gateExact_step (config : Config) (st : State) (ev : Event) :
  gateExact st ->
  match ev with
  | Inbound env session =>
      cleanDisposition (snd (middleware_receive config env st session))
  | _ => True
  end ->
  gateExact (step config st ev).
Proof.
  intros Hex Hclean.
  destruct ev as [env session|env uid outcome|env session|session]; cbn [step].
  - revert Hclean. unfold middleware_receive.
    destruct (bots env (userId session)); [done|].
    destruct (isActive st (userId session)) eqn:Hflag; [done|].
    destruct (jseqb _ _); [done|].
    destruct (chat_start _ _ _ _ _); [done | done |]. intros _.
    cbn [fst]. intros v. unfold inFlightUsers.
    cbn [inFlight setInFlight]. rewrite map_app, elem_of_app. cbn [map f_session].
    unfold isActive. cbn [activeChats setInFlight setActiveChats].
    rewrite lookup_insert. case_decide as Hv.
    + intros _. right. subst v. left.
    + intros Hact. left. by apply Hex.
  - destruct (takeInFlight uid (inFlight st)) as [[r rest]|] eqn:Htake; [|done].
    apply takeInFlight_Some in Htake as (Hid & l1 & l2 & Hl & ->).
    intros v. unfold middleware_resume, isActive, inFlightUsers.
    cbn [activeChats inFlight setInFlight]. rewrite Hid.
    destruct (decide (v = uid)) as [->|Hv]; [by rewrite lookup_delete_eq|].
    rewrite lookup_delete_ne by done. intros Hact.
    specialize (Hex v Hact). unfold inFlightUsers in Hex.
    rewrite Hl, map_app in Hex. cbn [map] in Hex. rewrite Hid in Hex.
    rewrite map_app. apply elem_of_app in Hex as [?|Hex];
      apply elem_of_app; [by left|].
    apply elem_of_cons in Hex as [?|?]; [done | by right].
  - unfold command_reset. by destruct (resetContext _ _ _).
  - done.
Qed.

Lemma gateExact_run (config : Config) (st : State) (evs : list Event) :
  gateExact st -> cleanTrace config st evs -> gateExact (run config st evs).
Proof.
  unfold run. revert st.
  induction evs as [|ev evs IH]; intros st Hex Hclean; [done|].
  destruct Hclean as [Hev Hrest]. cbn [fold_left]. apply IH; [|done].
  by apply gateExact_step.
Qed.

End GateExact.

(** X16.  The two exits between [activeChats.set] and [await fetch]
    (an empty normalised text, and [chat] throwing or not returning) are
    the only way for a flag to outlive its run: along every sequence of
    events in which no message takes one of them, a user's flag is set
    exactly while a run of that user is in flight. *)
Theorem flag_set_iff_in_flight (config : Config)
    (files0 : gmap jsstring FileRecord)
    (database0 : gmap jsstring AIChatTokenUsage) (evs : list Event) :
  cleanTrace config (initial files0 database0) evs ->
  let st := run config (initial files0 database0) evs in
  forall uid, isActive st uid = true <-> uid ∈ inFlightUsers st.
Proof.
  intros Hclean st uid. split.
  - apply (gateExact_run config _ evs); [|done]. intros v. unfold isActive.
    cbn [activeChats initial]. by rewrite lookup_empty.
  - apply (gateInv_run config _ evs (gateInv_initial files0 database0)).
Qed.

Lemma flag_set_iff_in_flight_witness :
  cleanTrace sampleConfig (initial ∅ ∅)
    [Inbound calmEnv (says alice "hello");
     Inbound calmEnv (says alice "again");
     Completion calmEnv alice (replyBody "hi!")] /\
  (isActive (run sampleConfig (initial ∅ ∅)
               [Inbound calmEnv (says alice "hello");
                Inbound calmEnv (says alice "again");
                Completion calmEnv alice (replyBody "hi!")]) alice = true <->
   alice ∈ inFlightUsers
             (run sampleConfig (initial ∅ ∅)
                [Inbound calmEnv (says alice "hello");
                 Inbound calmEnv (says alice "again");
                 Completion calmEnv alice (replyBody "hi!")])).
Proof.
  assert (Hclean : cleanTrace sampleConfig (initial ∅ ∅)
                     [Inbound calmEnv (says alice "hello");
                      Inbound calmEnv (says alice "again");
                      Completion calmEnv alice (replyBody "hi!")]).
  { vm_compute. tauto. }
  split; [exact Hclean|].
  apply (flag_set_iff_in_flight sampleConfig ∅ ∅ _ Hclean).
Defined.



(** X18.  Whether the user's own message is part of the request depends
    on its length alone.  If it is within the budget it is the last
    message of the request; if it is longer than the budget the
    truncation removes it with everything before it, and the request
    carries nothing but the system message (no message at all without a
    configured prompt). *)
Theorem request_has_user_message_iff_fits (config : Config) (env : Env)
    (files : gmap jsstring FileRecord) (session : Session)
    (content : jsstring) (loaded : list Message) :
  0 <= maxTokens config ->
  loadContext env files (userId session) = Ok loaded ->
  exists context body,
    chat_start config env files session content = ChatAwaitsFetch context body /\
    req_messages body = context /\
    req_max_tokens body = maxTokens config /\
    (jslength content <= maxTokens config ->
     last context = Some (userMessage content)) /\
    (maxTokens config < jslength content -> context = systemMessage config).
Proof.
  intros Hb Hload. unfold chat_start. rewrite Hload.
  destruct (truncate_longest_suffix_budget_aux
              (dropSystemPrompt loaded ++ [userMessage content])
              (maxTokens config) Hb) as (kept & Hkept & _).
  unfold userMessage in Hkept. rewrite Hkept. fold (userMessage content) in Hkept.
  eexists _, _. split; [done|]. cbn [req_messages req_max_tokens].
  do 2 (split; [done|]).
  apply truncate_result in Hkept as (Hsuf & Hfit & Hmax).
  destruct kept as [|x kept _] using rev_ind.
  - split; [|intros _; apply app_nil_r]. intros Hle. exfalso.
    assert (Hone : [userMessage content] `suffix_of`
                   dropSystemPrompt loaded ++ [userMessage content])
      by by apply suffix_app_r.
    specialize (Hmax _ Hone ltac:(simpl; lia)).
    rewrite contentLength_cons, contentLength_nil in Hmax.
    unfold userMessage, jslength in *. simpl in Hmax. lia.
  - apply suffix_snoc_inv_1 in Hsuf as ->. split.
    + intros _. by rewrite app_assoc, last_snoc.
    + intros Hgt. exfalso.
      rewrite contentLength_app, contentLength_cons, contentLength_nil in Hfit.
      pose proof (contentLength_nonneg kept).
      unfold userMessage, jslength in *. simpl in Hfit. lia.
Qed.

Lemma request_has_user_message_iff_fits_witness :
  0 <= 3 /\ 3 < jslength (js "hello") /\
  exists body,
    chat_start {| model := js "gpt-4"; customModel := None;
                  systemPrompt := None; helpMessage := []; maxTokens := 3 |}
      calmEnv staleFiles (says alice "hello") (js "hello")
    = ChatAwaitsFetch [] body.
Proof.
  split; [lia|]. split; [vm_compute; reflexivity|].
  destruct (request_has_user_message_iff_fits
              {| model := js "gpt-4"; customModel := None;
                 systemPrompt := None; helpMessage := []; maxTokens := 3 |}
              calmEnv staleFiles (says alice "hello") (js "hello")
              staleContext)
    as (context & body & Hstart & _ & _ & _ & Hover);
    [vm_compute; discriminate | vm_compute; reflexivity |].
  exists body. rewrite Hstart. f_equal. apply Hover. vm_compute. reflexivity.
Defined.

(** ** Two consequences of the way the middleware reads its result *)

(** X20.  A reply whose text is the empty string counts as a failure
    for the user only: [chat] appends it to the conversation, writes
    the record and merges the usage as for any reply, and the
    middleware, finding the returned text empty, sends the fallback
    message. *)
Theorem empty_reply_is_saved (env : Env) (st : State) (r : InFlight)
    (status : Z) (u : option Usage) :
  fs_write_ok env = true ->
  let uid := userId (f_session r) in
  let st' := middleware_resume env st r (replyWith status u []) in
  sent st' = sent st ++ [(uid, fallbackMessage)] /\
  files st' = <[uid := Parsable (f_context r ++ [assistantMessage []])]>
                (files st) /\
  database st' = fst (updateTokenUsage env (database st) (f_session r) u) /\
  ChatError uid ∉ s_errors (chat_settle env (files st) (database st)
                              (f_session r) (f_context r)
                              (replyWith status u [])).
Proof.
  intros Hw uid st'. subst uid st'. unfold middleware_resume, replyWith.
  rewrite chat_settle_reply. cbn zeta. rewrite Hw.
  cbn [sent files database s_text s_files s_database s_errors].
  repeat split; try done.
  unfold usageErrors. destruct (snd _); [|apply not_elem_of_nil].
  by intros [=]%list_elem_of_singleton.
Qed.

Lemma empty_reply_is_saved_witness :
  fs_write_ok calmEnv = true /\
  let st := run sampleConfig (initial ∅ ∅)
              [Inbound calmEnv (says alice "hello");
               Completion calmEnv alice (replyWith 200 (Some sampleUsage) [])] in
  sent st = [(alice, fallbackMessage)] /\
  files st !! alice
  = Some (Parsable [ {| role := role_system; content := js "S" ++ [10; 10]%N |};
                     userMessage (js "hello"); assistantMessage [] ]) /\
  counters (database st) alice = (5, 7, 12).
Proof.
  split; [reflexivity|]. intros st.
  pose (r := {| f_session := says alice "hello";
                f_context := [ {| role := role_system;
                                  content := js "S" ++ [10; 10]%N |};
                               userMessage (js "hello") ];
                f_body := {| req_model := model sampleConfig;
                             req_messages :=
                               [ {| role := role_system;
                                    content := js "S" ++ [10; 10]%N |};
                                 userMessage (js "hello") ];
                             req_max_tokens := 3000 |} |}).
  pose (st1 := setInFlight
                 (run sampleConfig (initial ∅ ∅)
                    [Inbound calmEnv (says alice "hello")]) []).
  assert (Hst : st = middleware_resume calmEnv st1 r
                       (replyWith 200 (Some sampleUsage) []))
    by (vm_compute; reflexivity).
  destruct (empty_reply_is_saved calmEnv st1 r 200 (Some sampleUsage) eq_refl)
    as (Hsent & Hfiles & Hdb & _).
  rewrite Hst, Hsent, Hfiles, Hdb. repeat split; vm_compute; reflexivity.
Defined.

Section Stuck.

Lemma stuck_step (config : Config) (st : State) (ev : Event) (uid : jsstring) :
  isActive st uid = true -> uid ∉ inFlightUsers st ->
  isActive (step config st ev) uid = true /\
  uid ∉ inFlightUsers (step config st ev).
Proof.
  intros Hflag Hfree.
  destruct ev as [env session|env v outcome|env session|session]; cbn [step].
  - unfold middleware_receive.
    destruct (bots env (userId session)); [done|].
    destruct (isActive st (userId session)) eqn:Hs; [done|].
    assert (Hne : userId session <> uid) by congruence.
    assert (Hkeep : isActive (setActiveChats st
                      (<[userId session := true]> (activeChats st))) uid = true).
    { rewrite isActive_insert. by case_decide. }
    destruct (jseqb _ _); [done|].
    destruct (chat_start _ _ _ _ _); [done | done |].
    cbn [fst]. split; [done|]. unfold inFlightUsers.
    cbn [inFlight setInFlight]. rewrite map_app.
    intros [Hin| Hin%list_elem_of_singleton]%elem_of_app; [done|].
    cbn [f_session] in Hin. congruence.
  - destruct (takeInFlight v (inFlight st)) as [[r rest]|] eqn:Htake; [|done].
    apply takeInFlight_Some in Htake as (Hid & l1 & l2 & Hl & ->).
    unfold inFlightUsers in Hfree. rewrite Hl, map_app in Hfree. cbn [map] in Hfree.
    assert (Hne : uid <> v).
    { intros ->. apply Hfree, elem_of_app. right. rewrite Hid. left. }
    unfold middleware_resume, isActive, inFlightUsers.
    cbn [activeChats inFlight setInFlight]. rewrite Hid.
    rewrite lookup_delete_ne by done. split; [exact Hflag|].
    rewrite map_app. intros [Hin|Hin]%elem_of_app;
      apply Hfree, elem_of_app; [by left | right; by right].
  - unfold command_reset. by destruct (resetContext _ _ _).
  - done.
Qed.

End Stuck.

(** X21.  Nothing but the completion of a run clears a flag: once a
    user's flag is set while no run of that user is in flight, it stays
    set through every later sequence of events ([reset] included), no
    run of that user is ever started again, and each message of the
    user gets the busy reply. *)
Theorem stuck_flag_is_permanent (config : Config) (st : State)
    (evs : list Event) (uid : jsstring) :
  isActive st uid = true ->
  uid ∉ inFlightUsers st ->
  let st' := run config st evs in
  isActive st' uid = true /\
  (uid ∉ inFlightUsers st') /\
  (forall env session,
     userId session = uid -> bots env uid = false ->
     middleware_receive config env st' session
     = (send st' uid busyMessage, RejectedBusy)).
Proof.
  intros Hflag Hfree st'. subst st'.
  assert (H : isActive (run config st evs) uid = true /\
              uid ∉ inFlightUsers (run config st evs)).
  { unfold run. revert st Hflag Hfree.
    induction evs as [|ev evs IH]; intros st Hflag Hfree; [done|].
    cbn [fold_left].
    destruct (stuck_step config st ev uid Hflag Hfree) as [Hf Hr].
    by apply IH. }
  destruct H as [Hf Hr]. split; [exact Hf|]. split; [exact Hr|].
  intros env session <- Hbot. by apply middleware_receive_busy.
Qed.

Lemma stuck_flag_is_permanent_witness :
  let st := run sampleConfig (initial ∅ ∅)
              [Inbound calmEnv (says alice "<br>")] in
  isActive st alice = true /\
  (alice ∉ inFlightUsers st) /\
  isActive (run sampleConfig st
              [ResetCommand calmEnv (says alice "reset");
               Inbound calmEnv (says alice "hello");
               Completion calmEnv alice (replyBody "hi!")]) alice = true.
Proof.
  intros st.
  assert (Hflag : isActive st alice = true) by (vm_compute; reflexivity).
  assert (Hfree : alice ∉ inFlightUsers st).
  { replace (inFlightUsers st) with (@nil jsstring) by (vm_compute; reflexivity).
    apply not_elem_of_nil. }
  split; [exact Hflag|]. split; [exact Hfree|].
  destruct (stuck_flag_is_permanent sampleConfig st
              [ResetCommand calmEnv (says alice "reset");
               Inbound calmEnv (says alice "hello");
               Completion calmEnv alice (replyBody "hi!")] alice Hflag Hfree)
    as [H _].
  exact H.
Defined.

(** ** Worked instances *)

Lemma trim_idempotent_witness :
  Forall whiteSpace (js "   ") /\ trim (js "   ") = [].
Proof.
  assert (H : Forall whiteSpace (js "   ")) by (repeat constructor).
  split; [exact H|].
  destruct (trim_idempotent (js "   ")) as [_ [_ Hall]]. by apply Hall.
Defined.

Lemma commandName_injective_witness :
  commandName (js "reset") = js "ai-chat.reset" /\
  commandName (js "reset") <> commandName (js "help").
Proof.
  destruct (commandName_injective (js "reset") (js "help")) as [Hname Hinj].
  split; [exact Hname|]. intros H. apply Hinj in H. discriminate H.
Defined.
